(** * DexScreenerV4: store-backed cache, rate limiter, signal queue, pipeline

    A shallow embedding of [DexAnalyzer] (src/DexScreenerV4.py), in two
    layers.

    The first layer is the store.  The three tables the session talks to are
    lists of rows; the primary keys declared on the columns are kept as an
    invariant ([well_formed]) and enforced by [session.add], which is an
    INSERT and fails on a key that is present.  Its operations are the
    methods one round trip at a time, on a session that works and with
    values the columns take; a round trip the store does not serve is a
    [down] flag of the operation and leaves the tables as they were.

    The second layer, [DexAnalyzer], is the object as it runs: the one
    session it opens in [__init__] and never rolls back, so that after a
    flush or a statement has failed every later use of the session raises;
    the [JSON] columns, written with the serializer of the engine, which has
    no encoding for a datetime; the bounds of the [String] and [Integer]
    columns and of [datetime]; and the NOTIFY statement, built by pasting
    the text of the message between quotes, whose parsing by the store is a
    parameter.

    Python exceptions are the [Raise] results of a state-and-error monad.
    [datetime.utcnow()] is an input of every operation that reads it, in
    microseconds (the resolution of [datetime]) counted from 1970.

    The constructor call at lines 125-128 of the source lacks its closing
    parenthesis; it is read as closed before [self.db_session.add(entry)]. *)

From Stdlib Require Import ZArith List String Bool Lia Permutation Sorted.
Import ListNotations.

Open Scope Z_scope.
Set Warnings "-register-all".

(** ** Python values *)

(** JSON-like values as they travel through the cache and the queue.
    A float is carried as its binary64 bit pattern, a datetime as a number
    of microseconds, a dict as its items in insertion order. *)
Inductive pyval : Type :=
| PNone
| PBool (b : bool)
| PInt (z : Z)
| PFloat (bits : Z)
| PStr (s : string)
| PTime (t : Z)
| PList (l : list pyval)
| PDict (d : list (string * pyval)).

Definition dict := list (string * pyval).

(** Python's truth value of an object, as tested by [if x:]. *)
Definition truthy (v : pyval) : bool :=
  match v with
  | PNone => false
  | PBool b => b
  | PInt z => negb (z =? 0)
  | PFloat bits => negb (Z.land bits (2 ^ 63 - 1) =? 0)
  | PStr s => negb (String.eqb s EmptyString)
  | PTime _ => true
  | PList l => match l with [] => false | _ => true end
  | PDict d => match d with [] => false | _ => true end
  end.

(** What a [JSON] column takes: [json.dumps], with the default serializer
    of the engine, raises on a datetime, and the store refuses the tokens it
    writes for a float that is not finite. *)
Fixpoint json_serializable (v : pyval) : bool :=
  match v with
  | PNone | PBool _ | PInt _ | PStr _ => true
  | PFloat bits => negb (Z.land (Z.shiftr bits 52) 2047 =? 2047)
  | PTime _ => false
  | PList l => forallb json_serializable l
  | PDict d => forallb (fun kv => json_serializable (snd kv)) d
  end.

(** [d.get(k)]: the value bound to [k], if any. *)
Fixpoint dict_get (k : string) (d : dict) : option pyval :=
  match d with
  | [] => None
  | (k', v) :: rest => if String.eqb k' k then Some v else dict_get k rest
  end.

(** [d[k] = v]: an existing key keeps its position, a new key goes last. *)
Fixpoint dict_set (k : string) (v : pyval) (d : dict) : dict :=
  match d with
  | [] => [(k, v)]
  | (k', v') :: rest =>
      if String.eqb k' k then (k, v) :: rest else (k', v') :: dict_set k v rest
  end.

(** [timedelta(seconds=n)] in microseconds. *)
Definition timedelta (seconds : Z) : Z := seconds * 1000000.

(** ** Tables *)

Record CacheStore := mkCacheStore {
  cs_key : string;      (* primary key *)
  cs_value : pyval;
  cs_expires : Z
}.

Record TradingSignal := mkTradingSignal {
  ts_id : Z;            (* primary key, assigned by the store *)
  ts_channel : string;
  ts_message : pyval;
  ts_created_at : Z
}.

Record RateLimit := mkRateLimit {
  rl_identifier : string;   (* primary key *)
  rl_count : Z;
  rl_expires : Z
}.

Inductive exn : Type :=
| KeyError (k : string)
| IntegrityError
| StoreUnavailable
| AnalysisFailure
| StatementError        (* a bound value the column type cannot encode *)
| DataError             (* a value the store refuses for its column *)
| ProgrammingError      (* a statement the store cannot parse *)
| TransactionAborted    (* the session is used after a failure, unrolled back *)
| OverflowError.        (* a date or a timedelta out of range *)

(** What the process emits besides its table writes, newest first. *)
Inductive Output : Type :=
| Printed (e : exn)            (* print(f"Processing error: {e}") *)
| Notified (payload : string)  (* NOTIFY trading_signals, '<payload>' *)
| Analyzed (data : dict).      (* one run of _analyze_data *)

Record State := mkState {
  cache_store : list CacheStore;
  rate_limits : list RateLimit;
  trading_signals : list TradingSignal;
  signal_seq : Z;               (* next value of trading_signals.id *)
  journal : list Output
}.

Definition empty_state : State := mkState [] [] [] 1 [].

Definition set_cache_store (t : list CacheStore) (s : State) : State :=
  mkState t (rate_limits s) (trading_signals s) (signal_seq s) (journal s).

Definition set_rate_limits (t : list RateLimit) (s : State) : State :=
  mkState (cache_store s) t (trading_signals s) (signal_seq s) (journal s).

Definition set_trading_signals (t : list TradingSignal) (s : State) : State :=
  mkState (cache_store s) (rate_limits s) t (signal_seq s) (journal s).

Definition emit_output (o : Output) (s : State) : State :=
  mkState (cache_store s) (rate_limits s) (trading_signals s) (signal_seq s)
          (o :: journal s).

(** ** The monad of session code *)

Inductive Result (A : Type) : Type :=
| Ok (a : A)
| Raise (e : exn).
Arguments Ok {A} a.
Arguments Raise {A} e.

Definition M (A : Type) : Type := State -> Result A * State.

Definition ret {A} (a : A) : M A := fun s => (Ok a, s).

Definition raise {A} (e : exn) : M A := fun s => (Raise e, s).

Definition bind {A B} (m : M A) (k : A -> M B) : M B :=
  fun s => match m s with
           | (Ok a, s') => k a s'
           | (Raise e, s') => (Raise e, s')
           end.

Declare Scope session_scope.
Delimit Scope session_scope with session.
Notation "x <- m ;; k" := (bind m (fun x => k))
  (at level 61, m at next level, right associativity) : session_scope.
Notation "m ;;; k" := (bind m (fun _ => k))
  (at level 61, right associativity) : session_scope.
Open Scope session_scope.

(** [try: body except Exception as e: handler(e)]. *)
Definition try_except {A} (body : M A) (handler : exn -> M A) : M A :=
  fun s => match body s with
           | (Ok a, s') => (Ok a, s')
           | (Raise e, s') => handler e s'
           end.

Definition emit (o : Output) : M unit := fun s => (Ok tt, emit_output o s).

(** One round trip ending in [session.commit()].  When the store is [down]
    the round trip raises and nothing is written; a statement that raises
    inside the transaction rolls the tables back. *)
Definition commit {A} (down : bool) (work : M A) : M A :=
  fun s => if down then (Raise StoreUnavailable, s)
           else match work s with
                | (Ok a, s') => (Ok a, s')
                | (Raise e, _) => (Raise e, s)
                end.

(** ** Rate limiting *)

Definition is_identifier (identifier : string) (r : RateLimit) : bool :=
  String.eqb (rl_identifier r) identifier.

(** [query(RateLimit).filter(RateLimit.identifier == identifier).first()] *)
Definition rate_first (identifier : string) (t : list RateLimit)
  : option RateLimit :=
  find (is_identifier identifier) t.

(** [session.add(entry)]: an INSERT, refused when the key is taken. *)
Definition rate_add (entry : RateLimit) : M unit :=
  fun s => if existsb (is_identifier (rl_identifier entry)) (rate_limits s)
           then (Raise IntegrityError, s)
           else (Ok tt, set_rate_limits (rate_limits s ++ [entry]) s).

(** The UPDATE flushed for [entry.count += 1] on the loaded row: the count
    computed from the loaded value is written to the row of that key. *)
Definition rate_store_count (identifier : string) (c : Z) : M unit :=
  fun s => (Ok tt,
            set_rate_limits
              (map (fun r => if is_identifier identifier r
                             then mkRateLimit (rl_identifier r) c (rl_expires r)
                             else r)
                   (rate_limits s)) s).

(** The body of [check_rate_limit] after the query returned [entry]. *)
Definition rate_decide (identifier : string) (limit window now : Z)
           (entry : option RateLimit) : M bool :=
  let fresh := mkRateLimit identifier 1 (now + timedelta window) in
  match entry with
  | None => rate_add fresh ;;; ret true
  | Some e =>
      if rl_expires e <? now then rate_add fresh ;;; ret true
      else if rl_count e >=? limit then ret false
      else rate_store_count identifier (rl_count e + 1) ;;; ret true
  end.

Definition check_rate_limit (identifier : string) (limit window now : Z)
           (down : bool) : M bool :=
  commit down
    (fun s => rate_decide identifier limit window now
                (rate_first identifier (rate_limits s)) s).

(** ** Cache operations *)

Definition is_key (key : string) (r : CacheStore) : bool :=
  String.eqb (cs_key r) key.

(** The row [cache_get] reads:
    [.filter(CacheStore.key == key).filter(CacheStore.expires > now).first()] *)
Definition cache_live (key : string) (now : Z) (t : list CacheStore)
  : option CacheStore :=
  find (fun r => is_key key r && (cs_expires r >? now)) t.

Definition cache_get (key : string) (now : Z) (down : bool) : M pyval :=
  fun s => if down then (Raise StoreUnavailable, s)
           else match cache_live key now (cache_store s) with
                | Some result => (Ok (cs_value result), s)
                | None => (Ok PNone, s)
                end.

(** [session.merge(entry)]: the row of that key is overwritten when there is
    one, inserted otherwise. *)
Definition cache_merge (entry : CacheStore) (t : list CacheStore)
  : list CacheStore :=
  if existsb (is_key (cs_key entry)) t
  then map (fun r => if is_key (cs_key entry) r then entry else r) t
  else t ++ [entry].

Definition cache_set (key : string) (value : pyval) (ttl now : Z)
           (down : bool) : M unit :=
  let expires := now + timedelta ttl in
  let cache_entry := mkCacheStore key value expires in
  commit down
    (fun s => (Ok tt, set_cache_store (cache_merge cache_entry (cache_store s)) s)).

(** The default of the [ttl] argument. *)
Definition default_ttl : Z := 3600.

(** ** The signal queue *)

Definition on_channel (channel : string) (m : TradingSignal) : bool :=
  String.eqb (ts_channel m) channel.

Definition created_le (a b : TradingSignal) : Prop :=
  ts_created_at a <= ts_created_at b.

(** What [ORDER BY created_at] promises of the rows it returns: the same
    rows, ascending in [created_at].  Rows with equal [created_at] come in
    whatever order the store picks. *)
Definition orders_by_created_at
           (order_by : list TradingSignal -> list TradingSignal) : Prop :=
  forall rows, Permutation rows (order_by rows)
               /\ StronglySorted created_le (order_by rows).

(** [session.delete(msg)]: the row with the primary key of [msg] goes. *)
Definition signal_delete (msg : TradingSignal) (s : State) : State :=
  set_trading_signals
    (filter (fun r => negb (ts_id r =? ts_id msg)) (trading_signals s)) s.

(** The detectors held in [self.models]. *)
Inductive Detector : Type := pump_detect | rug_detect.

Section Analyzer.

(** [str(x)], as used by the f-strings. *)
Variable py_str : pyval -> string.

(** The sort the store runs for [ORDER BY created_at]. *)
Variable order_by : list TradingSignal -> list TradingSignal.

(** Feature extraction and the fitted models, supplied from outside;
    [None] stands for a raised exception. *)
Variable Features : Type.
Variable _extract_features : dict -> option Features.
Variable score_samples : Detector -> Features -> option Z.

Definition publish_signal (channel : string) (message : pyval) (now : Z)
           (insert_down notify_down : bool) : M unit :=
  commit insert_down
    (fun s =>
       let signal := mkTradingSignal (signal_seq s) channel message now in
       (Ok tt,
        mkState (cache_store s) (rate_limits s)
                (trading_signals s ++ [signal]) (signal_seq s + 1)
                (journal s))) ;;;
  commit notify_down (emit (Notified (py_str message))).

(** The batch read by [consume_signals]:
    [.filter(channel == channel).order_by(created_at).limit(100).all()] *)
Definition fetch_signals (channel : string) (s : State)
  : list TradingSignal :=
  firstn 100 (order_by (filter (on_channel channel) (trading_signals s))).

(** [consume_signals] driven to exhaustion: the payloads it yields, and the
    state once every yielded row is deleted and the deletion committed. *)
Definition consume_signals (channel : string) (s : State)
  : list pyval * State :=
  let messages := fetch_signals channel s in
  (map ts_message messages,
   fold_left (fun st msg => signal_delete msg st) messages s).

(** [x[k]] on a dict. *)
Definition getitem (d : dict) (k : string) : M pyval :=
  match dict_get k d with
  | Some v => ret v
  | None => raise (KeyError k)
  end.

Definition external {A} (r : option A) : M A :=
  match r with
  | Some a => ret a
  | None => raise AnalysisFailure
  end.

Definition _analyze_data (data : dict) (now : Z) : M dict :=
  emit (Analyzed data) ;;;
  features <- external (_extract_features data) ;;
  pump_prob <- external (score_samples pump_detect features) ;;
  rug_prob <- external (score_samples rug_detect features) ;;
  ret (dict_set "timestamp" (PTime now)
         (dict_set "rug_prob" (PFloat rug_prob)
            (dict_set "pump_prob" (PFloat pump_prob) data))).

(** The readings of [datetime.utcnow()] along one run of [process_pair]. *)
Record Clock := mkClock {
  at_rate : Z;
  at_lookup : Z;
  at_analysis : Z;
  at_store : Z;
  at_publish : Z
}.

(** Which round trips of one run find the store unavailable. *)
Record Outage := mkOutage {
  rate_down : bool;
  lookup_down : bool;
  store_down : bool;
  insert_down : bool;
  notify_down : bool
}.

Definition no_outage : Outage := mkOutage false false false false false.

Definition pair_key (address : pyval) : string :=
  ("pair:" ++ py_str address)%string.

(** The [try] block of [process_pair]. *)
Definition process_pair_body (data : dict) (clk : Clock) (out : Outage)
  : M pyval :=
  allowed <- check_rate_limit "api_requests" 10 1 (at_rate clk)
                              (rate_down out) ;;
  if negb allowed then ret PNone
  else
    address <- getitem data "address" ;;
    let cache_key := pair_key address in
    cached <- cache_get cache_key (at_lookup clk) (lookup_down out) ;;
    if truthy cached then ret cached
    else
      analysis <- _analyze_data data (at_analysis clk) ;;
      cache_set cache_key (PDict analysis) default_ttl (at_store clk)
                (store_down out) ;;;
      signal <- getitem analysis "signal" ;;
      if truthy signal
      then publish_signal "trading" (PDict analysis) (at_publish clk)
                          (insert_down out) (notify_down out) ;;;
           ret PNone
      else ret PNone.

Definition process_pair (data : dict) (clk : Clock) (out : Outage)
  : M pyval :=
  try_except (process_pair_body data clk out)
             (fun e => emit (Printed e) ;;; ret PNone).

End Analyzer.

(** ** Invariants of the tables *)

(** The primary keys are unique and the id sequence is ahead of every stored
    signal. *)
Record well_formed (s : State) : Prop := {
  wf_cache_keys : NoDup (map cs_key (cache_store s));
  wf_rate_keys : NoDup (map rl_identifier (rate_limits s));
  wf_signal_ids : NoDup (map ts_id (trading_signals s));
  wf_signal_seq : Forall (fun r => ts_id r < signal_seq s) (trading_signals s)
}.

(** Session code that leaves the tables well formed, however it ends. *)
Definition keeps_well_formed {A} (m : M A) : Prop :=
  forall s, well_formed s -> well_formed (snd (m s)).

(** The window of [identifier] is absent, or open at [now] with room left:
    the two situations in which [check_rate_limit] admits without having to
    insert over an existing row. *)
Definition rate_admits (identifier : string) (limit now : Z)
           (t : list RateLimit) : bool :=
  match rate_first identifier t with
  | None => true
  | Some e => (now <=? rl_expires e) && (rl_count e <? limit)
  end.

(** ** The rate limiter as the specification words it *)

(** Section 4.2: a window that is absent or has [now >= windowExpiresAt] is
    replaced by [{count: 1, windowExpiresAt: now + windowSeconds}]; a full
    one denies without mutation; otherwise the count goes up by one. *)
Definition allow_as_specified (identifier : string) (limit window now : Z)
           (s : State) : bool * State :=
  let fresh := mkRateLimit identifier 1 (now + timedelta window) in
  let others := filter (fun r => negb (is_identifier identifier r))
                       (rate_limits s) in
  match rate_first identifier (rate_limits s) with
  | None => (true, set_rate_limits (others ++ [fresh]) s)
  | Some e =>
      if now >=? rl_expires e
      then (true, set_rate_limits (others ++ [fresh]) s)
      else if rl_count e >=? limit then (false, s)
      else (true, snd (rate_store_count identifier (rl_count e + 1) s))
  end.

(** ** Callers of the rate limiter running side by side *)

(** Every caller has a session of its own; between the query and the commit
    of one caller the store serves the others. *)
Inductive Caller : Type :=
| Calling (now : Z)
| Loaded (now : Z) (entry : option RateLimit)
| Returned (r : Result bool).

Definition caller_step (identifier : string) (limit window : Z) (c : Caller)
           (s : State) : Caller * State :=
  match c with
  | Calling now => (Loaded now (rate_first identifier (rate_limits s)), s)
  | Loaded now entry =>
      let (r, s') :=
        commit false (rate_decide identifier limit window now entry) s in
      (Returned r, s')
  | Returned r => (Returned r, s)
  end.

Fixpoint replace_nth {A} (n : nat) (x : A) (l : list A) : list A :=
  match l, n with
  | [], _ => []
  | _ :: rest, O => x :: rest
  | y :: rest, S n' => y :: replace_nth n' x rest
  end.

(** A schedule names, step by step, the caller that moves next. *)
Fixpoint run_schedule (identifier : string) (limit window : Z)
         (schedule : list nat) (callers : list Caller) (s : State)
  : list Caller * State :=
  match schedule with
  | [] => (callers, s)
  | i :: rest =>
      match nth_error callers i with
      | None => run_schedule identifier limit window rest callers s
      | Some c =>
          let (c', s') := caller_step identifier limit window c s in
          run_schedule identifier limit window rest
                       (replace_nth i c' callers) s'
      end
  end.

(** Calls made one after the other, each complete before the next. *)
Fixpoint check_rate_limit_each (identifier : string) (limit window : Z)
         (times : list Z) (s : State) : list (Result bool) * State :=
  match times with
  | [] => ([], s)
  | now :: rest =>
      let (r, s') := check_rate_limit identifier limit window now false s in
      let (rs, s'') := check_rate_limit_each identifier limit window rest s' in
      (r :: rs, s'')
  end.

Definition is_admitted (r : Result bool) : bool :=
  match r with Ok true => true | _ => false end.

Definition is_denied (r : Result bool) : bool :=
  match r with Ok false => true | _ => false end.

Definition caller_admitted (c : Caller) : bool :=
  match c with Returned r => is_admitted r | _ => false end.

(** ** Sorts the store may run *)

(** Insertion by [created_at]; [after_equals] says on which side of the rows
    with the same [created_at] the new row lands. *)
Fixpoint insert_by_created_at (after_equals : bool) (m : TradingSignal)
         (l : list TradingSignal) : list TradingSignal :=
  match l with
  | [] => [m]
  | x :: rest =>
      if (if after_equals
          then ts_created_at m <? ts_created_at x
          else ts_created_at m <=? ts_created_at x)
      then m :: x :: rest
      else x :: insert_by_created_at after_equals m rest
  end.

(** Ties stay in table order. *)
Definition stable_order_by (rows : list TradingSignal) : list TradingSignal :=
  fold_right (insert_by_created_at false) [] rows.

(** Ties come out in the reverse of table order. *)
Definition reversing_order_by (rows : list TradingSignal)
  : list TradingSignal :=
  fold_right (insert_by_created_at true) [] rows.

(** ** Runs of the queue *)

Definition post_channel (p : string * pyval * Z) : string := fst (fst p).
Definition post_message (p : string * pyval * Z) : pyval := snd (fst p).
Definition post_time (p : string * pyval * Z) : Z := snd p.

Definition post_on (channel : string) (p : string * pyval * Z) : bool :=
  String.eqb (post_channel p) channel.

(** A sequence of successful [publish_signal] calls. *)
Fixpoint publish_all (py_str : pyval -> string)
         (posts : list (string * pyval * Z)) (s : State) : State :=
  match posts with
  | [] => s
  | p :: rest =>
      publish_all py_str rest
        (snd (publish_signal py_str (post_channel p) (post_message p)
                             (post_time p) false false s))
  end.

(** One later use of the queue: a publish, failed or not, or a consume. *)
Inductive queue_step (s : State) : State -> Prop :=
| step_publish py_str channel message now insert_down notify_down :
    queue_step s
      (snd (publish_signal py_str channel message now insert_down
                           notify_down s))
| step_consume order_by channel :
    orders_by_created_at order_by ->
    queue_step s (snd (consume_signals order_by channel s)).

Inductive queue_steps (s : State) : State -> Prop :=
| steps_done : queue_steps s s
| steps_more s' s'' :
    queue_steps s s' -> queue_step s' s'' -> queue_steps s s''.

(** A message that was deleted: its id is spent and no row carries it. *)
Definition consumed (m : TradingSignal) (s : State) : Prop :=
  ts_id m < signal_seq s
  /\ forall r, In r (trading_signals s) -> ts_id r <> ts_id m.

(** ** The analyzer on its one session *)

(** The operations above are single round trips on a session that works,
    with values the columns take; their failures are the [down] flags.  The
    analyzer object holds one session for its whole life ([__init__]), the
    columns are typed, dates have a range, and the NOTIFY statement is built
    from the text of the message: here are the methods as they run on that
    object, each use of the session in the order the source makes it. *)
Module DexAnalyzer.

(** [self.db_session]: the tables it works on, and whether one of its round
    trips has failed.  No method rolls the session back, so once a flush or
    a statement has failed every later use of the session raises. *)
Record Analyzer := mkAnalyzer {
  db : State;
  aborted : bool
}.

(** A session newly opened on the tables. *)
Definition connect (s : State) : Analyzer := mkAnalyzer s false.

Definition MA (T : Type) : Type := Analyzer -> Result T * Analyzer.

Definition ret {T} (t : T) : MA T := fun a => (Ok t, a).

Definition bind {T U} (m : MA T) (k : T -> MA U) : MA U :=
  fun a => match m a with
           | (Ok t, a') => k t a'
           | (Raise e, a') => (Raise e, a')
           end.

Definition try_except {T} (body : MA T) (handler : exn -> MA T) : MA T :=
  fun a => match body a with
           | (Ok t, a') => (Ok t, a')
           | (Raise e, a') => handler e a'
           end.

Declare Scope analyzer_scope.
Delimit Scope analyzer_scope with analyzer.
Notation "x <- m ;; k" := (bind m (fun x => k))
  (at level 61, m at next level, right associativity) : analyzer_scope.
Notation "m ;;; k" := (bind m (fun _ => k))
  (at level 61, right associativity) : analyzer_scope.
#[local] Open Scope analyzer_scope.

(** Code that stays in the process: lookups in dicts, the collaborators,
    [print].  What it raises does not concern the session. *)
Definition python {T} (m : M T) : MA T :=
  fun a => let (r, s') := m (db a) in (r, mkAnalyzer s' (aborted a)).

(** One use of the session.  A session whose transaction has failed raises
    at once; a use that fails leaves it in that condition. *)
Definition round_trip {T} (m : M T) : MA T :=
  fun a => if aborted a then (Raise TransactionAborted, a)
           else match m (db a) with
                | (Ok t, s') => (Ok t, mkAnalyzer s' false)
                | (Raise e, s') => (Raise e, mkAnalyzer s' true)
                end.

(** [String(n)]: the store refuses a longer text on insert. *)
Definition fits (n : nat) (text : string) : bool :=
  (String.length text <=? n)%nat.

(** The largest value of an [Integer] column. *)
Definition integer_max : Z := 2147483647.

(** The range of [datetime], years 1 to 9999, in microseconds from 1970. *)
Definition datetime_min : Z := -62135596800000000.
Definition datetime_max : Z := 253402300799999999.

Definition is_datetime (t : Z) : bool :=
  (datetime_min <=? t) && (t <=? datetime_max).

(** [timedelta(seconds=n)] holds at most 999999999 days either way. *)
Definition is_timedelta (seconds : Z) : bool :=
  (-86399999913600 <=? seconds) && (seconds <=? 86399999999999).

Definition expiry_ok (now seconds : Z) : bool :=
  is_timedelta seconds && is_datetime (now + timedelta seconds).

(** [now + timedelta(seconds=n)], computed in the process. *)
Definition expiry (now seconds : Z) : M Z :=
  if expiry_ok now seconds then fun s => (Ok (now + timedelta seconds), s)
  else raise OverflowError.

Definition rate_query (identifier : string) : M (option RateLimit) :=
  fun s => (Ok (rate_first identifier (rate_limits s)), s).

(** The INSERT of a window: the identifier has to fit its column. *)
Definition rate_insert (entry : RateLimit) : M unit :=
  if fits 255 (rl_identifier entry) then rate_add entry
  else raise DataError.

(** The UPDATE of a count: the new count has to fit its column. *)
Definition rate_update (identifier : string) (c : Z) : M unit :=
  if c <=? integer_max then rate_store_count identifier c
  else raise DataError.

(** The query, the decision taken in the process, then the flush of the
    commit; the path that returns [False] does not commit. *)
Definition check_rate_limit (identifier : string) (limit window now : Z)
  : MA bool :=
  entry <- round_trip (rate_query identifier) ;;
  let fresh :=
    expires <- python (expiry now window) ;;
    round_trip (rate_insert (mkRateLimit identifier 1 expires)) ;;;
    ret true in
  match entry with
  | None => fresh
  | Some e =>
      if rl_expires e <? now then fresh
      else if rl_count e >=? limit then ret false
      else round_trip (rate_update identifier (rl_count e + 1)) ;;;
           ret true
  end.

Definition cache_get (key : string) (now : Z) : MA pyval :=
  round_trip (cache_get key now false).

(** The expiry is computed first; the flush of the merged row encodes
    [value] for the [JSON] column. *)
Definition cache_set (key : string) (value : pyval) (ttl now : Z) : MA unit :=
  python (expiry now ttl) ;;;
  round_trip
    (if negb (json_serializable value) then raise StatementError
     else if negb (fits 255 key) then raise DataError
     else cache_set key value ttl now false).

(** A run whose clock leaves room, before the end of [datetime], for the
    window of the limiter and for the ttl of the cache. *)
Definition in_range (clk : Clock) : bool :=
  expiry_ok (at_rate clk) 1 && expiry_ok (at_store clk) default_ttl.

Section Session.

Variable py_str : pyval -> string.

(** Whether the store parses [NOTIFY trading_signals, '<text>'], the text
    being pasted between the quotes as it is. *)
Variable notify_parses : string -> bool.

Variable order_by : list TradingSignal -> list TradingSignal.

Variable Features : Type.
Variable _extract_features : dict -> option Features.
Variable score_samples : Detector -> Features -> option Z.

(** [session.add(signal); session.commit()]: the message is encoded for
    its column, the channel has to fit, the sequence has to have an id
    left. *)
Definition signal_add (channel : string) (message : pyval) (now : Z)
  : M unit :=
  if negb (json_serializable message) then raise StatementError
  else if negb (fits 50 channel) then raise DataError
  else fun s =>
         if signal_seq s <=? integer_max
         then
           let signal := mkTradingSignal (signal_seq s) channel message now in
           (Ok tt,
            mkState (cache_store s) (rate_limits s)
                    (trading_signals s ++ [signal]) (signal_seq s + 1)
                    (journal s))
         else (Raise DataError, s).

(** [session.execute(text(f"NOTIFY ...")); session.commit()] *)
Definition signal_notify (message : pyval) : M unit :=
  if notify_parses (py_str message)
  then emit (Notified (py_str message))
  else raise ProgrammingError.

Definition publish_signal (channel : string) (message : pyval) (now : Z)
  : MA unit :=
  round_trip (signal_add channel message now) ;;;
  round_trip (signal_notify message).

(** The generator driven to exhaustion; on a failed session its query
    raises before anything is yielded. *)
Definition consume_signals (channel : string) : MA (list pyval) :=
  round_trip
    (fun s => let (payloads, s') := consume_signals order_by channel s in
              (Ok payloads, s')).

Definition process_pair_body (data : dict) (clk : Clock) : MA pyval :=
  allowed <- check_rate_limit "api_requests" 10 1 (at_rate clk) ;;
  if negb allowed then ret PNone
  else
    address <- python (getitem data "address") ;;
    let cache_key := pair_key py_str address in
    cached <- cache_get cache_key (at_lookup clk) ;;
    if truthy cached then ret cached
    else
      analysis <- python (_analyze_data Features _extract_features
                                        score_samples data
                                        (at_analysis clk)) ;;
      cache_set cache_key (PDict analysis) default_ttl (at_store clk) ;;;
      signal <- python (getitem analysis "signal") ;;
      if truthy signal
      then publish_signal "trading" (PDict analysis) (at_publish clk) ;;;
           ret PNone
      else ret PNone.

Definition process_pair (data : dict) (clk : Clock) : MA pyval :=
  try_except (process_pair_body data clk)
             (fun e => python (emit (Printed e)) ;;; ret PNone).

(** Events handled one after the other by the same analyzer. *)
Fixpoint process_pairs (events : list (dict * Clock)) (a : Analyzer)
  : list (Result pyval) * Analyzer :=
  match events with
  | [] => ([], a)
  | (data, clk) :: rest =>
      let (r, a') := process_pair data clk a in
      let (rs, a'') := process_pairs rest a' in
      (r :: rs, a'')
  end.

End Session.

(** Calls of the limiter made one after the other on the same session. *)
Fixpoint check_rate_limit_each (identifier : string) (limit window : Z)
         (times : list Z) (a : Analyzer) : list (Result bool) * Analyzer :=
  match times with
  | [] => ([], a)
  | now :: rest =>
      let (r, a') := check_rate_limit identifier limit window now a in
      let (rs, a'') := check_rate_limit_each identifier limit window rest a' in
      (r :: rs, a'')
  end.

End DexAnalyzer.

(** How many times [_analyze_data] ran, as recorded in the journal. *)
Fixpoint analyses (j : list Output) : nat :=
  match j with
  | [] => O
  | Analyzed _ :: rest => S (analyses rest)
  | _ :: rest => analyses rest
  end.

(** ** Invariants of session code in general *)

(** [m] keeps [I]: from a state in [I] it ends in a state in [I], whether it
    returns or raises. *)
Definition preserves (I : State -> Prop) {A} (m : M A) : Prop :=
  forall s, I s -> I (snd (m s)).

(** The ids of the stored signals grow along the table and stay below the
    sequence. *)
Definition ids_ascending (s : State) : Prop :=
  StronglySorted Z.lt (map ts_id (trading_signals s))
  /\ Forall (fun r => ts_id r < signal_seq s) (trading_signals s).

(** No window of [identifier] counts more than [limit] calls, the first
    call of a window being counted whatever the limit. *)
Definition window_within (identifier : string) (limit : Z) (s : State)
  : Prop :=
  forall e, In e (rate_limits s) -> rl_identifier e = identifier ->
            rl_count e <= Z.max 1 limit.

(** The states the analyzer can be in: the empty tables, and whatever its
    operations make of a state it can be in. *)
Inductive reachable : State -> Prop :=
| reach_empty : reachable empty_state
| reach_check s identifier limit window now down :
    reachable s ->
    reachable (snd (check_rate_limit identifier limit window now down s))
| reach_get s key now down :
    reachable s -> reachable (snd (cache_get key now down s))
| reach_set s key value ttl now down :
    reachable s -> reachable (snd (cache_set key value ttl now down s))
| reach_publish s py_str channel message now d1 d2 :
    reachable s ->
    reachable (snd (publish_signal py_str channel message now d1 d2 s))
| reach_consume s order_by channel :
    orders_by_created_at order_by ->
    reachable s -> reachable (snd (consume_signals order_by channel s))
| reach_process s py_str (Features : Type) extract scores data clk out :
    reachable s ->
    reachable (snd (process_pair py_str Features extract scores data clk
                                 out s)).

(** ** Sample collaborators and events *)

(** [str] on the values whose text is themselves. *)
Definition str_of_text (v : pyval) : string :=
  match v with
  | PStr s => s
  | _ => EmptyString
  end.

(** A feature extractor that needs the price of the pair. *)
Definition price_features (data : dict) : option Z :=
  match dict_get "price" data with
  | Some (PInt p) => Some p
  | _ => None
  end.

Definition constant_scores (d : Detector) (features : Z) : option Z :=
  match d with
  | pump_detect => Some 4602678819172646912
  | rug_detect => Some 4607182418800017408
  end.

Definition sample_clock (t : Z) : Clock := mkClock t t t t t.

Definition sample_pair (address : string) (signal : bool) : dict :=
  [("address", PStr address); ("price", PInt 3); ("signal", PBool signal)]%string.

Definition sample_run (data : dict) (t : Z) (out : Outage) : M pyval :=
  process_pair str_of_text Z price_features constant_scores data
               (sample_clock t) out.

(** Ten calls in the instant 4 s have filled the window that ends at 5 s. *)
Definition full_window_state : State :=
  snd (check_rate_limit_each "api" 10 1 (repeat 4000000 10) empty_state).

(** Two messages published to one channel within the same microsecond. *)
Definition tied_posts : list (string * pyval * Z) :=
  [("trading", PStr "first", 7); ("trading", PStr "second", 7)]%string.

Definition tied_state : State := publish_all str_of_text tied_posts empty_state.

(** Publishes to two channels, the stamps increasing. *)
Definition mixed_posts : list (string * pyval * Z) :=
  [("trading", PStr "a", 1); ("audit", PStr "x", 1); ("trading", PStr "b", 2)]%string.

(** An event without a price, which the sample extractor rejects. *)
Definition priceless_pair : dict := [("address", PStr "0xbad")]%string.

(** An event without a [signal] field. *)
Definition unflagged_pair : dict :=
  [("address", PStr "0xabc"); ("price", PInt 3)]%string.

(** A parser that takes the NOTIFY texts without a quote in them. *)
Fixpoint quote_free (text : string) : bool :=
  match text with
  | EmptyString => true
  | String c rest =>
      negb (Ascii.eqb c (Ascii.ascii_of_nat 39)) && quote_free rest
  end.

(** An analyzer newly started on empty tables. *)
Definition sample_analyzer : DexAnalyzer.Analyzer :=
  DexAnalyzer.connect empty_state.

(** [process_pair] with the sample collaborators, every reading of the
    clock being [t]. *)
Definition program_run (data : dict) (t : Z)
  : DexAnalyzer.MA pyval :=
  DexAnalyzer.process_pair str_of_text quote_free Z price_features
                           constant_scores data (sample_clock t).

Definition store_outage : Outage := mkOutage false false true false false.


(** Ten calls of the pipeline's limiter within the instant 0. *)
Definition ten_events_state : State :=
  snd (check_rate_limit_each "api_requests" 10 1 (repeat 0 10) empty_state).

(** One call on ["api"] with limit 2 was admitted at time 0. *)
Definition one_call_state : State :=
  snd (check_rate_limit "api" 2 1 0 false empty_state).

Definition mixed_state : State := publish_all str_of_text mixed_posts empty_state.

(** An event without an address, and one that brings a [timestamp] of its
    own. *)
Definition anonymous_pair : dict := [("price", PInt 3)]%string.

Definition stamped_pair : dict :=
  [("address", PStr "0xabc"); ("timestamp", PInt 5); ("price", PInt 3)]%string.

(** * Properties *)

(** ** Dicts *)

Lemma dict_get_set_same (k : string) (v : pyval) (d : dict) :
  dict_get k (dict_set k v d) = Some v.
Proof.
  induction d as [|[k' v'] rest IH]; simpl.
  - now rewrite String.eqb_refl.
  - destruct (String.eqb k' k) eqn:E; simpl.
    + now rewrite String.eqb_refl.
    + now rewrite E.
Qed.

Lemma dict_get_set_other (k k0 : string) (v : pyval) (d : dict) :
  k0 <> k -> dict_get k (dict_set k0 v d) = dict_get k d.
Proof.
  intros Hne. induction d as [|[k' v'] rest IH]; simpl.
  - destruct (String.eqb k0 k) eqn:E; [|reflexivity].
    apply String.eqb_eq in E. contradiction.
  - destruct (String.eqb k' k0) eqn:E0; simpl.
    + apply String.eqb_eq in E0. subst k'.
      destruct (String.eqb k0 k) eqn:E; [|reflexivity].
      apply String.eqb_eq in E. contradiction.
    + destruct (String.eqb k' k); [reflexivity | exact IH].
Qed.

(** ** Queries on keyed tables *)

Lemma find_none_existsb {A} (f : A -> bool) (l : list A) :
  find f l = None -> existsb f l = false.
Proof.
  induction l as [|x l IH]; simpl; [reflexivity|].
  destruct (f x); [discriminate | exact IH].
Qed.

Lemma find_some_existsb {A} (f : A -> bool) (l : list A) (x : A) :
  find f l = Some x -> existsb f l = true.
Proof.
  intros H. apply find_some in H. apply existsb_exists. now exists x.
Qed.

Lemma rate_first_identifier identifier t e :
  rate_first identifier t = Some e -> rl_identifier e = identifier.
Proof.
  intros H. apply find_some in H. destruct H as [_ H].
  now apply String.eqb_eq in H.
Qed.

Lemma rate_first_stored identifier c t :
  rate_first identifier
    (map (fun r => if is_identifier identifier r
                   then mkRateLimit (rl_identifier r) c (rl_expires r)
                   else r) t)
  = option_map (fun e => mkRateLimit identifier c (rl_expires e))
               (rate_first identifier t).
Proof.
  unfold rate_first. induction t as [|r t IH]; simpl; [reflexivity|].
  destruct (is_identifier identifier r) eqn:E.
  - unfold is_identifier at 1. simpl. unfold is_identifier in E. rewrite E.
    apply String.eqb_eq in E. now rewrite E.
  - rewrite E. exact IH.
Qed.

Lemma rate_first_stored_other identifier other c t :
  other <> identifier ->
  rate_first other
    (map (fun r => if is_identifier identifier r
                   then mkRateLimit (rl_identifier r) c (rl_expires r)
                   else r) t)
  = rate_first other t.
Proof.
  intros Hne. unfold rate_first.
  induction t as [|r t IH]; simpl; [reflexivity|].
  rewrite IH. clear IH.
  destruct (is_identifier identifier r) eqn:E; [|reflexivity].
  assert (Hr : is_identifier other r = false).
  { unfold is_identifier in *. apply String.eqb_eq in E. rewrite E.
    apply String.eqb_neq. congruence. }
  rewrite Hr. unfold is_identifier in *. simpl. now rewrite Hr.
Qed.

Lemma rate_first_app_none identifier t e :
  rate_first identifier t = None ->
  rl_identifier e = identifier ->
  rate_first identifier (t ++ [e]) = Some e.
Proof.
  unfold rate_first. intros Hn He.
  induction t as [|r t IH]; simpl in *.
  - unfold is_identifier. rewrite He. now rewrite String.eqb_refl.
  - destruct (is_identifier identifier r); [discriminate | now apply IH].
Qed.

Lemma rate_first_app_other identifier other t e :
  rl_identifier e = identifier -> other <> identifier ->
  rate_first other (t ++ [e]) = rate_first other t.
Proof.
  unfold rate_first. intros He Hne.
  induction t as [|r t IH]; simpl.
  - unfold is_identifier. rewrite He.
    destruct (String.eqb identifier other) eqn:E; [|reflexivity].
    apply String.eqb_eq in E. congruence.
  - destruct (is_identifier other r); [reflexivity | exact IH].
Qed.

(** ** The rate limiter, one call at a time *)

Lemma check_rate_limit_first identifier limit window now s :
  rate_first identifier (rate_limits s) = None ->
  check_rate_limit identifier limit window now false s
  = (Ok true,
     set_rate_limits
       (rate_limits s ++ [mkRateLimit identifier 1 (now + timedelta window)])
       s).
Proof.
  intros Hn. unfold check_rate_limit, commit. rewrite Hn.
  unfold rate_decide, bind, rate_add. simpl rl_identifier.
  now rewrite (find_none_existsb _ _ Hn).
Qed.

Lemma check_rate_limit_full identifier limit window now s e :
  rate_first identifier (rate_limits s) = Some e ->
  now <= rl_expires e -> rl_count e >= limit ->
  check_rate_limit identifier limit window now false s = (Ok false, s).
Proof.
  intros He Hnow Hc. unfold check_rate_limit, commit. rewrite He.
  unfold rate_decide.
  destruct (rl_expires e <? now) eqn:E1; [apply Z.ltb_lt in E1; lia|].
  destruct (rl_count e >=? limit) eqn:E2; [reflexivity|].
  rewrite Z.geb_leb in E2. apply Z.leb_gt in E2. lia.
Qed.

Lemma check_rate_limit_room identifier limit window now s e :
  rate_first identifier (rate_limits s) = Some e ->
  now <= rl_expires e -> rl_count e < limit ->
  check_rate_limit identifier limit window now false s
  = (Ok true, snd (rate_store_count identifier (rl_count e + 1) s)).
Proof.
  intros He Hnow Hc. unfold check_rate_limit, commit. rewrite He.
  unfold rate_decide.
  destruct (rl_expires e <? now) eqn:E1; [apply Z.ltb_lt in E1; lia|].
  destruct (rl_count e >=? limit) eqn:E2.
  - rewrite Z.geb_leb in E2. apply Z.leb_le in E2. lia.
  - reflexivity.
Qed.

(** A window that exists and lies in the past is not replaced: the INSERT
    meets the row that is still there. *)
Lemma check_rate_limit_expired identifier limit window now s e :
  rate_first identifier (rate_limits s) = Some e ->
  rl_expires e < now ->
  check_rate_limit identifier limit window now false s
  = (Raise IntegrityError, s).
Proof.
  intros He Hnow. unfold check_rate_limit, commit. rewrite He.
  unfold rate_decide.
  destruct (rl_expires e <? now) eqn:E1; [|apply Z.ltb_ge in E1; lia].
  unfold bind, rate_add. simpl rl_identifier.
  now rewrite (find_some_existsb _ _ _ He).
Qed.

(** A call of the limiter writes to the window of its identifier only. *)
Lemma check_rate_limit_frame identifier limit window now s r s' :
  check_rate_limit identifier limit window now false s = (r, s') ->
  cache_store s' = cache_store s
  /\ trading_signals s' = trading_signals s
  /\ signal_seq s' = signal_seq s
  /\ journal s' = journal s
  /\ forall other, other <> identifier ->
       rate_first other (rate_limits s') = rate_first other (rate_limits s).
Proof.
  intros H.
  destruct (rate_first identifier (rate_limits s)) as [e|] eqn:He.
  - destruct (Z.lt_ge_cases (rl_expires e) now) as [Hx|Hx].
    + rewrite (check_rate_limit_expired _ _ _ _ _ _ He Hx) in H.
      inversion H; subst. tauto.
    + destruct (Z.lt_ge_cases (rl_count e) limit) as [Hc|Hc].
      * rewrite (check_rate_limit_room _ _ _ _ _ _ He Hx Hc) in H.
        inversion H; subst. simpl. repeat split; try reflexivity.
        intros other Hne. now apply rate_first_stored_other.
      * apply Z.le_ge in Hc.
        rewrite (check_rate_limit_full _ _ _ _ _ _ He Hx Hc) in H.
        inversion H; subst. tauto.
  - rewrite (check_rate_limit_first _ _ _ _ _ He) in H.
    inversion H; subst. simpl. repeat split; try reflexivity.
    intros other Hne. now apply rate_first_app_other with identifier.
Qed.

(** C1 (amended): [check_rate_limit] on an identifier without a window
    inserts [{count: 1, expires: now + window}] and returns true; on a
    window with [now <= expires] it returns false and leaves the state as it
    is when [count >= limit], and otherwise returns true with the count of
    that window raised by exactly one, its expiry and every other window
    untouched. *)
Theorem check_rate_limit_cases identifier limit window now s :
  (rate_first identifier (rate_limits s) = None ->
   exists s',
     check_rate_limit identifier limit window now false s = (Ok true, s')
     /\ rate_first identifier (rate_limits s')
        = Some (mkRateLimit identifier 1 (now + timedelta window)))
  /\ (forall e,
        rate_first identifier (rate_limits s) = Some e ->
        now <= rl_expires e ->
        (rl_count e >= limit ->
         check_rate_limit identifier limit window now false s = (Ok false, s))
        /\ (rl_count e < limit ->
            exists s',
              check_rate_limit identifier limit window now false s
              = (Ok true, s')
              /\ rate_first identifier (rate_limits s')
                 = Some (mkRateLimit identifier (rl_count e + 1)
                                     (rl_expires e))))
  /\ (forall r s',
        check_rate_limit identifier limit window now false s = (r, s') ->
        cache_store s' = cache_store s
        /\ trading_signals s' = trading_signals s
        /\ signal_seq s' = signal_seq s
        /\ journal s' = journal s
        /\ forall other, other <> identifier ->
             rate_first other (rate_limits s')
             = rate_first other (rate_limits s)).
Proof.
  split; [|split].
  - intros Hn. eexists. split; [now apply check_rate_limit_first|].
    simpl. now apply rate_first_app_none.
  - intros e He Hnow. split; intros Hc.
    + now apply check_rate_limit_full with e.
    + eexists. split; [exact (check_rate_limit_room _ _ _ _ _ e He Hnow Hc)|].
      simpl. rewrite rate_first_stored, He. reflexivity.
  - intros r s'. apply check_rate_limit_frame.
Qed.

(** ** The cache *)

Lemma is_key_eq key r : is_key key r = true <-> cs_key r = key.
Proof. unfold is_key. apply String.eqb_eq. Qed.

Lemma is_key_neq key r : is_key key r = false <-> cs_key r <> key.
Proof. unfold is_key. apply String.eqb_neq. Qed.

Lemma cache_key_unique t r r' :
  NoDup (map cs_key t) -> In r t -> In r' t -> cs_key r = cs_key r' -> r = r'.
Proof.
  induction t as [|x t IH]; simpl; intros Hnd Hr Hr' Hk; [contradiction|].
  inversion Hnd as [|? ? Hnotin Hnd']; subst.
  destruct Hr as [->|Hr], Hr' as [->|Hr']; auto.
  - exfalso. apply Hnotin. rewrite Hk. now apply in_map.
  - exfalso. apply Hnotin. rewrite <- Hk. now apply in_map.
Qed.

Lemma filter_absent_key key t :
  existsb (is_key key) t = false -> filter (is_key key) t = [].
Proof.
  induction t as [|x t IH]; simpl; [reflexivity|].
  destruct (is_key key x); simpl; [discriminate | exact IH].
Qed.

Lemma filter_not_in_keys key t :
  ~ In key (map cs_key t) -> filter (is_key key) t = [].
Proof.
  induction t as [|x t IH]; simpl; intros H; [reflexivity|].
  destruct (is_key key x) eqn:E.
  - apply is_key_eq in E. tauto.
  - apply IH. tauto.
Qed.

Lemma filter_present_key key t :
  NoDup (map cs_key t) -> existsb (is_key key) t = true ->
  exists r, filter (is_key key) t = [r].
Proof.
  induction t as [|x t IH]; simpl; intros Hnd Hex; [discriminate|].
  inversion Hnd as [|? ? Hnotin Hnd']; subst.
  destruct (is_key key x) eqn:E.
  - exists x. f_equal. apply filter_not_in_keys.
    apply is_key_eq in E. now rewrite <- E.
  - apply IH; assumption.
Qed.

Lemma cache_merge_keys entry t :
  existsb (is_key (cs_key entry)) t = true ->
  map cs_key (cache_merge entry t) = map cs_key t.
Proof.
  intros Hex. unfold cache_merge. rewrite Hex. rewrite map_map.
  apply map_ext. intros r.
  destruct (is_key (cs_key entry) r) eqn:E; [|reflexivity].
  apply is_key_eq in E. now rewrite E.
Qed.

Lemma cache_merge_nodup entry t :
  NoDup (map cs_key t) -> NoDup (map cs_key (cache_merge entry t)).
Proof.
  intros Hnd. destruct (existsb (is_key (cs_key entry)) t) eqn:Hex.
  - now rewrite cache_merge_keys.
  - unfold cache_merge. rewrite Hex. rewrite map_app. simpl.
    apply NoDup_app; [exact Hnd | repeat constructor; simpl; tauto |].
    intros k Hin [<-|[]].
    apply in_map_iff in Hin. destruct Hin as [r [Hk Hin]].
    assert (existsb (is_key (cs_key entry)) t = true).
    { apply existsb_exists. exists r. split; [exact Hin | now apply is_key_eq]. }
    congruence.
Qed.

Lemma filter_replaced key entry t :
  cs_key entry = key ->
  filter (is_key key) (map (fun r => if is_key key r then entry else r) t)
  = map (fun _ => entry) (filter (is_key key) t).
Proof.
  intros Hk. induction t as [|x t IH]; simpl; [reflexivity|].
  destruct (is_key key x) eqn:E.
  - assert (H : is_key key entry = true) by now apply is_key_eq.
    rewrite H. simpl. now rewrite IH.
  - rewrite E. exact IH.
Qed.

Lemma cache_merge_one_row key entry t :
  cs_key entry = key -> NoDup (map cs_key t) ->
  filter (is_key key) (cache_merge entry t) = [entry].
Proof.
  intros Hk Hnd. unfold cache_merge. rewrite Hk.
  destruct (existsb (is_key key) t) eqn:Hex.
  - rewrite filter_replaced by exact Hk.
    destruct (filter_present_key key t Hnd Hex) as [r ->]. reflexivity.
  - rewrite filter_app, filter_absent_key by exact Hex. simpl.
    assert (H : is_key key entry = true) by now apply is_key_eq.
    now rewrite H.
Qed.

Lemma cache_merge_other_rows key other entry t :
  cs_key entry = key -> other <> key ->
  filter (is_key other) (cache_merge entry t) = filter (is_key other) t.
Proof.
  intros Hk Hne.
  assert (He : is_key other entry = false) by (apply is_key_neq; congruence).
  unfold cache_merge. rewrite Hk.
  destruct (existsb (is_key key) t).
  - induction t as [|x t IH]; simpl; [reflexivity|].
    destruct (is_key key x) eqn:E.
    + rewrite He.
      assert (Hx : is_key other x = false).
      { apply is_key_neq. apply is_key_eq in E. congruence. }
      now rewrite Hx.
    + destruct (is_key other x); [now rewrite IH | exact IH].
  - rewrite filter_app. simpl. rewrite He. apply app_nil_r.
Qed.

(** The row a read of [key] at [now] sees is decided by the rows of that
    key alone. *)
Lemma cache_live_filter key now t :
  cache_live key now t
  = find (fun r => cs_expires r >? now) (filter (is_key key) t).
Proof.
  unfold cache_live. induction t as [|x t IH]; simpl; [reflexivity|].
  destruct (is_key key x); simpl; [|exact IH].
  destruct (cs_expires x >? now); [reflexivity | exact IH].
Qed.

Lemma cache_live_merged key value expires now t :
  NoDup (map cs_key t) ->
  cache_live key now (cache_merge (mkCacheStore key value expires) t)
  = if expires >? now then Some (mkCacheStore key value expires) else None.
Proof.
  intros Hnd. rewrite cache_live_filter.
  rewrite (cache_merge_one_row key) by (try reflexivity; exact Hnd).
  simpl. now destruct (expires >? now).
Qed.

Lemma cache_live_merged_other key other entry now t :
  cs_key entry = key -> other <> key ->
  cache_live other now (cache_merge entry t) = cache_live other now t.
Proof.
  intros Hk Hne. rewrite !cache_live_filter.
  now rewrite (cache_merge_other_rows key).
Qed.

Lemma cache_set_ok key value ttl now s :
  cache_set key value ttl now false s
  = (Ok tt,
     set_cache_store
       (cache_merge (mkCacheStore key value (now + timedelta ttl))
                    (cache_store s)) s).
Proof. reflexivity. Qed.

Lemma cache_set_well_formed key value ttl now down s :
  well_formed s -> well_formed (snd (cache_set key value ttl now down s)).
Proof.
  intros [H1 H2 H3 H4]. destruct down; [now split|].
  rewrite cache_set_ok. split; simpl; try assumption.
  now apply cache_merge_nodup.
Qed.

(** C2: [cache_get] returns the value of the entry of [key] when that entry
    exists with [now < expires]; when every row of [key] is past its expiry,
    or there is none, it returns [None], the rows staying where they are;
    a value other than [None] only ever comes from a live entry of [key].
    In particular a value set with [ttl] is read back until the ttl has
    elapsed and is absent from then on. *)
Theorem cache_get_live_only key now s :
  well_formed s ->
  (forall r, In r (cache_store s) -> cs_key r = key -> now < cs_expires r ->
             cache_get key now false s = (Ok (cs_value r), s))
  /\ ((forall r, In r (cache_store s) -> cs_key r = key ->
                 cs_expires r <= now) ->
      cache_get key now false s = (Ok PNone, s))
  /\ (forall v s', cache_get key now false s = (Ok v, s') -> v <> PNone ->
        s' = s
        /\ exists r, In r (cache_store s) /\ cs_key r = key
                     /\ now < cs_expires r /\ cs_value r = v)
  /\ (forall value ttl t0,
        let s1 := snd (cache_set key value ttl t0 false s) in
        cache_get key now false s1
        = (Ok (if now <? t0 + timedelta ttl then value else PNone), s1)).
Proof.
  intros Hwf. repeat split.
  - intros r Hin Hk Hlive. unfold cache_get.
    destruct (cache_live key now (cache_store s)) as [r'|] eqn:E.
    + unfold cache_live in E. apply find_some in E. destruct E as [Hin' Hc].
      apply andb_true_iff in Hc. destruct Hc as [Hk' _].
      apply is_key_eq in Hk'.
      assert (r = r') as ->; [|reflexivity].
      apply (cache_key_unique (cache_store s)); try assumption.
      * apply Hwf.
      * congruence.
    + exfalso. unfold cache_live in E.
      apply (find_none _ _ E) in Hin.
      apply andb_false_iff in Hin. destruct Hin as [Hf|Hf].
      * apply is_key_neq in Hf. contradiction.
      * rewrite Z.gtb_ltb in Hf. apply Z.ltb_ge in Hf. lia.
  - intros Hall. unfold cache_get.
    destruct (cache_live key now (cache_store s)) as [r'|] eqn:E;
      [|reflexivity].
    exfalso. unfold cache_live in E. apply find_some in E.
    destruct E as [Hin' Hc]. apply andb_true_iff in Hc.
    destruct Hc as [Hk' Hl]. apply is_key_eq in Hk'.
    specialize (Hall r' Hin' Hk'). rewrite Z.gtb_ltb in Hl.
    apply Z.ltb_lt in Hl. lia.
  - unfold cache_get in H.
    destruct (cache_live key now (cache_store s)); now inversion H.
  - unfold cache_get in H.
    destruct (cache_live key now (cache_store s)) as [r'|] eqn:E.
    + inversion H; subst. unfold cache_live in E. apply find_some in E.
      destruct E as [Hin' Hc]. apply andb_true_iff in Hc.
      destruct Hc as [Hk' Hl]. apply is_key_eq in Hk'.
      rewrite Z.gtb_ltb in Hl. apply Z.ltb_lt in Hl.
      exists r'. auto.
    + inversion H; subst. contradiction.
  - intros value ttl t0 s1. subst s1. rewrite cache_set_ok. simpl.
    unfold cache_get. simpl.
    rewrite cache_live_merged by apply Hwf.
    rewrite Z.gtb_ltb. now destruct (now <? t0 + timedelta ttl).
Qed.

(** C8: two [cache_set] calls on one key leave exactly one row of that key,
    carrying the value and the expiry of the later call; the keys stay
    unique and the rows of every other key are as before. *)
Theorem cache_set_last_write_wins key v1 ttl1 t1 v2 ttl2 t2 s :
  well_formed s ->
  let s1 := snd (cache_set key v1 ttl1 t1 false s) in
  let s2 := snd (cache_set key v2 ttl2 t2 false s1) in
  fst (cache_set key v1 ttl1 t1 false s) = Ok tt
  /\ fst (cache_set key v2 ttl2 t2 false s1) = Ok tt
  /\ filter (is_key key) (cache_store s2)
     = [mkCacheStore key v2 (t2 + timedelta ttl2)]
  /\ well_formed s2
  /\ forall other, other <> key ->
       filter (is_key other) (cache_store s2)
       = filter (is_key other) (cache_store s).
Proof.
  intros Hwf s1 s2.
  assert (Hwf1 : well_formed s1) by now apply cache_set_well_formed.
  repeat split; try reflexivity.
  - subst s2. rewrite cache_set_ok. simpl.
    apply cache_merge_one_row; [reflexivity | apply Hwf1].
  - apply cache_set_well_formed, Hwf1.
  - apply cache_set_well_formed, Hwf1.
  - apply cache_set_well_formed, Hwf1.
  - apply cache_set_well_formed, Hwf1.
  - intros other Hne. subst s2 s1. rewrite !cache_set_ok. simpl.
    rewrite (cache_merge_other_rows key) by (try reflexivity; exact Hne).
    now rewrite (cache_merge_other_rows key).
Qed.

(** ** Sorting by [created_at] *)

Lemma insert_by_created_at_perm b m l :
  Permutation (m :: l) (insert_by_created_at b m l).
Proof.
  induction l as [|x l IH]; simpl; [apply Permutation_refl|].
  destruct (if b then ts_created_at m <? ts_created_at x
            else ts_created_at m <=? ts_created_at x).
  - apply Permutation_refl.
  - eapply perm_trans; [apply perm_swap|]. now apply perm_skip.
Qed.

Lemma insert_by_created_at_sorted b m l :
  StronglySorted created_le l ->
  StronglySorted created_le (insert_by_created_at b m l).
Proof.
  induction l as [|x l IH]; simpl; intros Hs.
  - repeat constructor.
  - inversion Hs as [|? ? Hs' Hall]; subst.
    destruct (if b then ts_created_at m <? ts_created_at x
              else ts_created_at m <=? ts_created_at x) eqn:E.
    + assert (Hmx : created_le m x).
      { unfold created_le. destruct b;
          [apply Z.ltb_lt in E | apply Z.leb_le in E]; lia. }
      constructor; [exact Hs|]. constructor; [exact Hmx|].
      eapply Forall_impl; [|exact Hall].
      unfold created_le in *. intros; lia.
    + assert (Hxm : created_le x m).
      { unfold created_le. destruct b;
          [apply Z.ltb_ge in E | apply Z.leb_gt in E]; lia. }
      constructor; [now apply IH|].
      eapply Permutation_Forall; [apply insert_by_created_at_perm|].
      now constructor.
Qed.

Lemma insertion_orders b :
  orders_by_created_at (fold_right (insert_by_created_at b) []).
Proof.
  intros rows. induction rows as [|m rows [IHp IHs]]; simpl.
  - split; constructor.
  - split.
    + eapply perm_trans; [apply perm_skip, IHp|].
      apply insert_by_created_at_perm.
    + now apply insert_by_created_at_sorted.
Qed.

Lemma stable_order_by_orders : orders_by_created_at stable_order_by.
Proof. apply insertion_orders. Qed.

Lemma reversing_order_by_orders : orders_by_created_at reversing_order_by.
Proof. apply insertion_orders. Qed.

(** Rows whose [created_at] strictly increase have one sorted arrangement. *)
Lemma sorted_arrangement_unique l :
  StronglySorted Z.lt (map ts_created_at l) ->
  forall l', Permutation l l' -> StronglySorted created_le l' -> l' = l.
Proof.
  induction l as [|a t IH]; simpl; intros Hs l' Hp Hs'.
  - now apply Permutation_nil.
  - inversion Hs as [|? ? Hst Hall]; subst.
    destruct l' as [|b t'].
    + apply Permutation_sym, Permutation_nil in Hp. discriminate.
    + assert (Hb : In b (a :: t)).
      { apply Permutation_in with (b :: t');
          [now apply Permutation_sym | now left]. }
      destruct Hb as [<-|Hb].
      * f_equal. apply IH; [exact Hst | | now inversion Hs'].
        now apply Permutation_cons_inv with a.
      * exfalso.
        assert (Hab : ts_created_at a < ts_created_at b).
        { rewrite Forall_forall in Hall. apply Hall. now apply in_map. }
        assert (Ha : In a (b :: t')).
        { apply Permutation_in with (a :: t); [exact Hp | now left]. }
        destruct Ha as [->|Ha]; [lia|].
        inversion Hs' as [|? ? _ Hall']; subst.
        rewrite Forall_forall in Hall'. specialize (Hall' a Ha).
        unfold created_le in Hall'. lia.
Qed.

Lemma in_firstn {A} (n : nat) (l : list A) (x : A) :
  In x (firstn n l) -> In x l.
Proof.
  revert l. induction n as [|n IH]; intros [|y l]; simpl; try tauto.
  intros [->|H]; [now left | right; now apply IH].
Qed.

(** ** The queue *)

Lemma publish_signal_ok py_str channel message now s :
  publish_signal py_str channel message now false false s
  = (Ok tt,
     mkState (cache_store s) (rate_limits s)
             (trading_signals s
                ++ [mkTradingSignal (signal_seq s) channel message now])
             (signal_seq s + 1)
             (Notified (py_str message) :: journal s)).
Proof. reflexivity. Qed.

(** Whatever happens to a publish, the table afterwards is the old one,
    possibly with one more row that carries the next id. *)
Lemma publish_signal_table py_str channel message now d1 d2 s :
  let s' := snd (publish_signal py_str channel message now d1 d2 s) in
  cache_store s' = cache_store s
  /\ rate_limits s' = rate_limits s
  /\ ((trading_signals s' = trading_signals s /\ signal_seq s' = signal_seq s)
      \/ (trading_signals s'
          = trading_signals s
              ++ [mkTradingSignal (signal_seq s) channel message now]
          /\ signal_seq s' = signal_seq s + 1)).
Proof.
  destruct d1, d2; simpl; auto.
Qed.

Lemma publish_all_rows py_str channel posts :
  forall s, exists rows,
    trading_signals (publish_all py_str posts s) = trading_signals s ++ rows
    /\ map ts_message (filter (on_channel channel) rows)
       = map post_message (filter (post_on channel) posts)
    /\ map ts_created_at (filter (on_channel channel) rows)
       = map post_time (filter (post_on channel) posts).
Proof.
  induction posts as [|p rest IH]; intros s.
  - exists []. simpl. now rewrite app_nil_r.
  - cbn [publish_all]. rewrite publish_signal_ok. cbn [snd].
    match goal with |- context [publish_all _ _ ?st] =>
      destruct (IH st) as [rows [Ht [Hm Hc]]] end.
    simpl in Ht.
    set (row := mkTradingSignal (signal_seq s) (post_channel p)
                                (post_message p) (post_time p)) in *.
    exists (row :: rows).
    split; [now rewrite Ht, <- app_assoc|].
    cbn [filter]. change (on_channel channel row) with (post_on channel p).
    destruct (post_on channel p).
    + cbn [map]. now rewrite Hm, Hc.
    + now split.
Qed.

(** C3 (amended): after publishes whose [created_at] stamps strictly
    increase within the channel, on a channel that held nothing before,
    [consume_signals] yields the payloads of that channel in exactly the
    order they were published (the first 100 of them), whatever the store
    does with ties and whatever was published to other channels in
    between. *)
Theorem consume_in_publish_order order_by py_str channel posts s :
  orders_by_created_at order_by ->
  filter (on_channel channel) (trading_signals s) = [] ->
  StronglySorted Z.lt (map post_time (filter (post_on channel) posts)) ->
  fst (consume_signals order_by channel (publish_all py_str posts s))
  = firstn 100 (map post_message (filter (post_on channel) posts)).
Proof.
  intros Hord Hempty Hsorted.
  destruct (publish_all_rows py_str channel posts s) as [rows [Ht [Hm Hc]]].
  unfold consume_signals, fetch_signals. cbn [fst].
  rewrite Ht, filter_app, Hempty. cbn [app].
  destruct (Hord (filter (on_channel channel) rows)) as [Hp Hs].
  rewrite <- Hc in Hsorted.
  rewrite (sorted_arrangement_unique _ Hsorted _ Hp Hs).
  now rewrite <- firstn_map, Hm.
Qed.

Lemma fetch_signals_in order_by channel s m :
  orders_by_created_at order_by ->
  In m (fetch_signals order_by channel s) ->
  In m (trading_signals s) /\ ts_channel m = channel.
Proof.
  intros Hord Hin. unfold fetch_signals in Hin. apply in_firstn in Hin.
  destruct (Hord (filter (on_channel channel) (trading_signals s)))
    as [Hp _].
  apply Permutation_sym in Hp. apply (Permutation_in _ Hp) in Hin.
  apply filter_In in Hin. destruct Hin as [Hin Hc]. split; [exact Hin|].
  now apply String.eqb_eq in Hc.
Qed.

Lemma deleted_rows batch :
  forall s r,
    In r (trading_signals
            (fold_left (fun st msg => signal_delete msg st) batch s))
    <-> In r (trading_signals s)
        /\ forall m, In m batch -> ts_id r <> ts_id m.
Proof.
  induction batch as [|m batch IH]; intros s r; cbn [fold_left].
  - split; [intros H; split; [exact H | intros ? []] | tauto].
  - rewrite IH. unfold signal_delete at 1. cbn [trading_signals set_trading_signals].
    rewrite filter_In, negb_true_iff, Z.eqb_neq. split.
    + intros [[Hin Hne] Hall]. split; [exact Hin|].
      intros m' [<-|Hm']; auto.
    + intros [Hin Hall]. repeat split; [exact Hin | |];
        intros; apply Hall; simpl; auto.
Qed.

Lemma deleted_seq batch :
  forall s,
    signal_seq (fold_left (fun st msg => signal_delete msg st) batch s)
    = signal_seq s.
Proof.
  induction batch as [|m batch IH]; intros s; cbn [fold_left];
    [reflexivity|].
  now rewrite IH.
Qed.

Lemma signal_id_unique t r r' :
  NoDup (map ts_id t) -> In r t -> In r' t -> ts_id r = ts_id r' -> r = r'.
Proof.
  induction t as [|x t IH]; simpl; intros Hnd Hr Hr' Hk; [contradiction|].
  inversion Hnd as [|? ? Hnotin Hnd']; subst.
  destruct Hr as [->|Hr], Hr' as [->|Hr']; auto.
  - exfalso. apply Hnotin. rewrite Hk. now apply in_map.
  - exfalso. apply Hnotin. rewrite <- Hk. now apply in_map.
Qed.

Lemma consumed_step m s s' :
  consumed m s -> queue_step s s' -> consumed m s'.
Proof.
  intros [Hid Hrows] Hstep.
  destruct Hstep as [py channel message now d1 d2 | order_by channel Hord].
  - destruct (publish_signal_table py channel message now d1 d2 s)
      as [_ [_ [[Ht Hs]|[Ht Hs]]]];
      unfold consumed; rewrite Ht, Hs.
    + now split.
    + split; [lia|]. intros r Hin. apply in_app_or in Hin.
      destruct Hin as [Hin|[<-|[]]]; [now apply Hrows | simpl; lia].
  - unfold consumed, consume_signals. cbn [snd].
    rewrite deleted_seq. split; [exact Hid|].
    intros r Hin. apply deleted_rows in Hin. now apply Hrows.
Qed.

Lemma consumed_steps m s s' :
  consumed m s -> queue_steps s s' -> consumed m s'.
Proof.
  intros Hc Hsteps. induction Hsteps; [exact Hc|].
  eapply consumed_step; eauto.
Qed.

(** C4 (amended): one [consume_signals] call yields at most 100 payloads
    (the batch bound is the constant of the query, not an argument); every
    row it yields was in the table and is deleted from it, every other row
    stays, and no later read of the queue, after any publishes and consumes,
    returns a yielded row again. *)
Theorem consume_removes_batch order_by channel s :
  orders_by_created_at order_by ->
  well_formed s ->
  let batch := fetch_signals order_by channel s in
  let s' := snd (consume_signals order_by channel s) in
  fst (consume_signals order_by channel s) = map ts_message batch
  /\ (List.length (fst (consume_signals order_by channel s)) <= 100)%nat
  /\ (forall m, In m batch ->
        In m (trading_signals s) /\ ~ In m (trading_signals s'))
  /\ (forall r, In r (trading_signals s) -> ~ In r batch ->
        In r (trading_signals s'))
  /\ (forall s'' order_by' channel' m,
        queue_steps s' s'' -> orders_by_created_at order_by' ->
        In m batch -> ~ In m (fetch_signals order_by' channel' s'')).
Proof.
  intros Hord Hwf batch s'.
  assert (Hgone : forall m, In m batch -> consumed m s').
  { intros m Hm. destruct (fetch_signals_in _ _ _ _ Hord Hm) as [Hin _].
    subst s'. unfold consumed, consume_signals. cbn [snd].
    rewrite deleted_seq. split.
    - pose proof (wf_signal_seq s Hwf) as Hseq.
      rewrite Forall_forall in Hseq. now apply Hseq.
    - intros r Hr. apply deleted_rows in Hr. destruct Hr as [_ Hr].
      now apply Hr. }
  split; [reflexivity|]. split; [|split; [|split]].
  - unfold consume_signals. cbn [fst]. rewrite length_map.
    apply firstn_le_length.
  - intros m Hm. split; [now apply (fetch_signals_in _ _ _ _ Hord Hm)|].
    intros Hin. destruct (Hgone m Hm) as [_ Hrows].
    now apply (Hrows m Hin).
  - intros r Hin Hnot. subst s'. unfold consume_signals. cbn [snd].
    apply deleted_rows. split; [exact Hin|].
    intros m Hm Heq. apply Hnot.
    destruct (fetch_signals_in _ _ _ _ Hord Hm) as [Hmin _].
    assert (r = m) as ->; [|exact Hm].
    apply (signal_id_unique (trading_signals s)); try assumption.
    apply Hwf.
  - intros s'' order_by' channel' m Hsteps Hord' Hm Hin.
    destruct (consumed_steps m s' s'' (Hgone m Hm) Hsteps) as [_ Hrows].
    destruct (fetch_signals_in _ _ _ _ Hord' Hin) as [Hin' _].
    now apply (Hrows m Hin').
Qed.

(** ** The rate limiter, call after call *)

Lemma caller_steps_are_check identifier limit window now s :
  let (c, s1) := caller_step identifier limit window (Calling now) s in
  caller_step identifier limit window c s1
  = (Returned (fst (check_rate_limit identifier limit window now false s)),
     snd (check_rate_limit identifier limit window now false s)).
Proof.
  unfold caller_step, check_rate_limit, commit.
  now destruct (rate_decide identifier limit window now
                  (rate_first identifier (rate_limits s)) s) as [[b|e] s'].
Qed.

Lemma calls_in_open_window identifier limit window times :
  forall s e,
    rate_first identifier (rate_limits s) = Some e ->
    Forall (fun t => t <= rl_expires e) times ->
    fst (check_rate_limit_each identifier limit window times s)
    = repeat (Ok true)
             (Nat.min (List.length times) (Z.to_nat (limit - rl_count e)))
      ++ repeat (Ok false)
                (List.length times - Z.to_nat (limit - rl_count e)).
Proof.
  induction times as [|t times IH]; intros s e He Hall; [reflexivity|].
  inversion Hall as [|? ? Ht Hall']; subst.
  cbn [check_rate_limit_each].
  destruct (Z.lt_ge_cases (rl_count e) limit) as [Hc|Hc].
  - rewrite (check_rate_limit_room _ _ _ _ _ _ He Ht Hc).
    set (s1 := snd (rate_store_count identifier (rl_count e + 1) s)).
    assert (He1 : rate_first identifier (rate_limits s1)
                  = Some (mkRateLimit identifier (rl_count e + 1)
                                      (rl_expires e))).
    { subst s1. simpl. now rewrite rate_first_stored, He. }
    specialize (IH s1 _ He1 Hall'). cbn [rl_count] in IH.
    destruct (check_rate_limit_each identifier limit window times s1)
      as [rs s2].
    cbn [fst] in *. rewrite IH. cbn [List.length].
    replace (Z.to_nat (limit - rl_count e))
      with (S (Z.to_nat (limit - (rl_count e + 1)))) by lia.
    reflexivity.
  - apply Z.le_ge in Hc.
    rewrite (check_rate_limit_full _ _ _ _ _ _ He Ht Hc).
    specialize (IH s _ He Hall').
    destruct (check_rate_limit_each identifier limit window times s)
      as [rs s2].
    cbn [fst] in *. rewrite IH. cbn [List.length].
    replace (Z.to_nat (limit - rl_count e)) with O by lia.
    rewrite !Nat.min_0_r, !Nat.sub_0_r. reflexivity.
Qed.

(** C9 (amended): when the calls on one identifier run one after the other,
    starting without a window and all within the window the first call
    opens, a limit [N >= 1] and [M > N] calls give exactly [N] results true
    followed by [M - N] results false. *)
Theorem sequential_calls_admit_limit identifier limit window t0 rest s :
  1 <= limit ->
  rate_first identifier (rate_limits s) = None ->
  Forall (fun t => t <= t0 + timedelta window) rest ->
  (Z.to_nat limit < List.length (t0 :: rest))%nat ->
  fst (check_rate_limit_each identifier limit window (t0 :: rest) s)
  = repeat (Ok true) (Z.to_nat limit)
    ++ repeat (Ok false) (List.length (t0 :: rest) - Z.to_nat limit).
Proof.
  intros Hl Hn Hall Hm. cbn [check_rate_limit_each].
  rewrite (check_rate_limit_first _ _ _ _ _ Hn).
  set (s1 := set_rate_limits _ s).
  assert (He1 : rate_first identifier (rate_limits s1)
                = Some (mkRateLimit identifier 1 (t0 + timedelta window))).
  { subst s1. simpl. now apply rate_first_app_none. }
  pose proof (calls_in_open_window identifier limit window rest s1 _ He1 Hall)
    as Hrest.
  cbn [rl_count] in Hrest.
  destruct (check_rate_limit_each identifier limit window rest s1)
    as [rs s2].
  cbn [fst] in *. rewrite Hrest. cbn [List.length] in *.
  replace (Nat.min (List.length rest) (Z.to_nat (limit - 1)))
    with (Z.to_nat (limit - 1)) by lia.
  replace (Z.to_nat limit) with (S (Z.to_nat (limit - 1))) by lia.
  reflexivity.
Qed.

(** ** What a read after a write sees *)

Lemma cache_live_replaced_dead key entry now t :
  cs_key entry = key -> (cs_expires entry >? now) = false ->
  cache_live key now (map (fun r => if is_key key r then entry else r) t)
  = None.
Proof.
  intros Hk Hd. unfold cache_live.
  induction t as [|x t IH]; simpl; [reflexivity|].
  destruct (is_key key x) eqn:E.
  - rewrite Hd, andb_false_r. exact IH.
  - rewrite E. exact IH.
Qed.

Lemma cache_live_replaced_live key entry now t :
  cs_key entry = key -> (cs_expires entry >? now) = true ->
  existsb (is_key key) t = true ->
  cache_live key now (map (fun r => if is_key key r then entry else r) t)
  = Some entry.
Proof.
  intros Hk Hl. unfold cache_live.
  assert (He : is_key key entry = true) by now apply is_key_eq.
  induction t as [|x t IH]; simpl; [discriminate|].
  destruct (is_key key x) eqn:E; simpl.
  - now rewrite He, Hl.
  - rewrite E. exact IH.
Qed.

Lemma cache_live_absent key now t :
  existsb (is_key key) t = false -> cache_live key now t = None.
Proof.
  unfold cache_live. induction t as [|x t IH]; simpl; [reflexivity|].
  destruct (is_key key x); simpl; [discriminate | exact IH].
Qed.

Lemma cache_live_appended key entry now t :
  cs_key entry = key -> existsb (is_key key) t = false ->
  cache_live key now (t ++ [entry])
  = if cs_expires entry >? now then Some entry else None.
Proof.
  intros Hk. unfold cache_live.
  assert (He : is_key key entry = true) by now apply is_key_eq.
  induction t as [|x t IH]; simpl.
  - now rewrite He.
  - destruct (is_key key x); simpl; [discriminate | exact IH].
Qed.

(** The uniqueness of the keys is not needed for this one: a merge rewrites
    every row of the key. *)
Lemma cache_live_after_merge key value expires now t :
  cache_live key now (cache_merge (mkCacheStore key value expires) t)
  = if expires >? now then Some (mkCacheStore key value expires) else None.
Proof.
  unfold cache_merge. cbn [cs_key].
  destruct (existsb (is_key key) t) eqn:Hex.
  - destruct (expires >? now) eqn:Hl.
    + now apply cache_live_replaced_live.
    + now apply cache_live_replaced_dead.
  - now rewrite cache_live_appended.
Qed.

Lemma rate_admits_check identifier limit window now s :
  rate_admits identifier limit now (rate_limits s) = true ->
  exists s1,
    check_rate_limit identifier limit window now false s = (Ok true, s1)
    /\ cache_store s1 = cache_store s
    /\ trading_signals s1 = trading_signals s
    /\ signal_seq s1 = signal_seq s
    /\ journal s1 = journal s.
Proof.
  unfold rate_admits. intros H.
  destruct (rate_first identifier (rate_limits s)) as [e|] eqn:He.
  - apply andb_true_iff in H. destruct H as [Hx Hc].
    apply Z.leb_le in Hx. apply Z.ltb_lt in Hc.
    rewrite (check_rate_limit_room _ _ _ _ _ _ He Hx Hc).
    eexists. split; [reflexivity|]. simpl. tauto.
  - rewrite (check_rate_limit_first _ _ _ _ _ He).
    eexists. split; [reflexivity|]. simpl. tauto.
Qed.

Lemma dict_set_truthy k v d : truthy (PDict (dict_set k v d)) = true.
Proof.
  destruct d as [|[k' v'] rest]; simpl; [reflexivity|].
  now destruct (String.eqb k' k).
Qed.

Lemma check_rate_limit_tables identifier limit window now down s :
  let s' := snd (check_rate_limit identifier limit window now down s) in
  cache_store s' = cache_store s
  /\ trading_signals s' = trading_signals s
  /\ signal_seq s' = signal_seq s
  /\ journal s' = journal s.
Proof.
  destruct down; [simpl; tauto|].
  destruct (check_rate_limit identifier limit window now false s)
    as [r s'] eqn:H.
  apply check_rate_limit_frame in H. cbn [snd]. tauto.
Qed.

Section Pipeline.

Variable Features : Type.
Variable _extract_features : dict -> option Features.
Variable score_samples : Detector -> Features -> option Z.

Local Abbreviation analyze :=
  (_analyze_data Features _extract_features score_samples).

(** The record [_analyze_data] builds when its collaborators answer. *)
Lemma analyze_data_ok data now features pump rug s :
  _extract_features data = Some features ->
  score_samples pump_detect features = Some pump ->
  score_samples rug_detect features = Some rug ->
  analyze data now s
  = (Ok (dict_set "timestamp" (PTime now)
           (dict_set "rug_prob" (PFloat rug)
              (dict_set "pump_prob" (PFloat pump) data))),
     emit_output (Analyzed data) s).
Proof.
  intros Hf Hp Hr. unfold _analyze_data, bind, emit, external.
  rewrite Hf. unfold ret at 1. rewrite Hp. unfold ret at 1. rewrite Hr.
  reflexivity.
Qed.

(** Whatever the collaborators answer, the run of the analysis is on
    record and the tables are as they were. *)
Lemma analyze_data_tables data now s :
  let s' := snd (analyze data now s) in
  cache_store s' = cache_store s
  /\ rate_limits s' = rate_limits s
  /\ trading_signals s' = trading_signals s
  /\ signal_seq s' = signal_seq s
  /\ journal s' = Analyzed data :: journal s.
Proof.
  unfold _analyze_data, bind, emit, external.
  destruct (_extract_features data) as [f|]; simpl; [|tauto].
  destruct (score_samples pump_detect f); simpl; [|tauto].
  destruct (score_samples rug_detect f); simpl; tauto.
Qed.

End Pipeline.

(** ** The invariant is kept *)

Lemma keeps_ret {A} (a : A) : keeps_well_formed (ret a).
Proof. intros s H. exact H. Qed.

Lemma keeps_raise {A} (e : exn) : keeps_well_formed (@raise A e).
Proof. intros s H. exact H. Qed.

Lemma keeps_bind {A B} (m : M A) (k : A -> M B) :
  keeps_well_formed m -> (forall a, keeps_well_formed (k a)) ->
  keeps_well_formed (bind m k).
Proof.
  intros Hm Hk s Hs. unfold bind. specialize (Hm s Hs).
  destruct (m s) as [[a|e] s']; cbn [snd] in *; [now apply Hk | exact Hm].
Qed.

Lemma keeps_try_except {A} (m : M A) (h : exn -> M A) :
  keeps_well_formed m -> (forall e, keeps_well_formed (h e)) ->
  keeps_well_formed (try_except m h).
Proof.
  intros Hm Hh s Hs. unfold try_except. specialize (Hm s Hs).
  destruct (m s) as [[a|e] s']; cbn [snd] in *; [exact Hm | now apply Hh].
Qed.

Lemma keeps_commit {A} (down : bool) (m : M A) :
  keeps_well_formed m -> keeps_well_formed (commit down m).
Proof.
  intros Hm s Hs. unfold commit. destruct down; [exact Hs|].
  specialize (Hm s Hs). destruct (m s) as [[a|e] s']; [exact Hm | exact Hs].
Qed.

Lemma keeps_emit (o : Output) : keeps_well_formed (emit o).
Proof. intros s [H1 H2 H3 H4]. now split. Qed.

Lemma rate_first_none_not_in identifier t :
  rate_first identifier t = None -> ~ In identifier (map rl_identifier t).
Proof.
  intros Hn Hin. apply in_map_iff in Hin. destruct Hin as [r [Hr Hin]].
  apply (find_none _ _ Hn) in Hin. unfold is_identifier in Hin.
  rewrite Hr, String.eqb_refl in Hin. discriminate.
Qed.

Lemma keeps_check_rate_limit identifier limit window now down :
  keeps_well_formed (check_rate_limit identifier limit window now down).
Proof.
  intros s Hs. destruct down; [exact Hs|].
  destruct Hs as [H1 H2 H3 H4].
  destruct (rate_first identifier (rate_limits s)) as [e|] eqn:He.
  - destruct (Z.lt_ge_cases (rl_expires e) now) as [Hx|Hx].
    + rewrite (check_rate_limit_expired _ _ _ _ _ _ He Hx). now split.
    + destruct (Z.lt_ge_cases (rl_count e) limit) as [Hc|Hc].
      * rewrite (check_rate_limit_room _ _ _ _ _ _ He Hx Hc).
        split; simpl; try assumption.
        rewrite map_map.
        erewrite map_ext; [exact H2|].
        intros r. now destruct (is_identifier identifier r).
      * apply Z.le_ge in Hc.
        rewrite (check_rate_limit_full _ _ _ _ _ _ He Hx Hc). now split.
  - rewrite (check_rate_limit_first _ _ _ _ _ He).
    split; simpl; try assumption.
    rewrite map_app. simpl. apply NoDup_app;
      [exact H2 | repeat constructor; simpl; tauto |].
    intros k Hin [<-|[]]. now apply (rate_first_none_not_in _ _ He).
Qed.

Lemma keeps_cache_get key now down : keeps_well_formed (cache_get key now down).
Proof.
  intros s Hs. unfold cache_get. destruct down; [exact Hs|].
  now destruct (cache_live key now (cache_store s)).
Qed.

Lemma keeps_cache_set key value ttl now down :
  keeps_well_formed (cache_set key value ttl now down).
Proof. intros s Hs. now apply cache_set_well_formed. Qed.

Lemma keeps_publish_signal py_str channel message now d1 d2 :
  keeps_well_formed (publish_signal py_str channel message now d1 d2).
Proof.
  unfold publish_signal. apply keeps_bind.
  - apply keeps_commit. intros s [H1 H2 H3 H4]. split; simpl; try assumption.
    + rewrite map_app. simpl. apply NoDup_app;
        [exact H3 | repeat constructor; simpl; tauto |].
      intros k Hin [<-|[]]. apply in_map_iff in Hin.
      destruct Hin as [r [Hr Hin]]. rewrite Forall_forall in H4.
      specialize (H4 r Hin). lia.
    + apply Forall_app. split.
      * eapply Forall_impl; [|exact H4]. simpl. intros; lia.
      * repeat constructor. simpl. lia.
  - intros _. apply keeps_commit, keeps_emit.
Qed.

(** Dropping rows keeps the ids of the others apart. *)
Lemma kept_rows_unique_ids (keep : TradingSignal -> bool) t :
  NoDup (map ts_id t) -> NoDup (map ts_id (filter keep t)).
Proof.
  induction t as [|row t IH]; cbn [filter map]; intros Hids;
    [constructor|].
  apply NoDup_cons_iff in Hids. destruct Hids as [Hfresh Hrest].
  destruct (keep row); cbn [map]; [|now apply IH].
  apply NoDup_cons_iff. split; [|now apply IH].
  rewrite in_map_iff. intros [other [Hsame Hkept]].
  apply filter_In in Hkept. apply Hfresh, in_map_iff.
  exists other. tauto.
Qed.

Lemma signal_delete_well_formed msg s :
  well_formed s -> well_formed (signal_delete msg s).
Proof.
  intros [H1 H2 H3 H4]. split; simpl; try assumption.
  - now apply kept_rows_unique_ids.
  - rewrite Forall_forall in *. intros r Hin. apply filter_In in Hin.
    now apply H4.
Qed.

Lemma consume_signals_well_formed order_by channel s :
  well_formed s -> well_formed (snd (consume_signals order_by channel s)).
Proof.
  unfold consume_signals. cbn [snd].
  generalize (fetch_signals order_by channel s). intros batch. revert s.
  induction batch as [|m batch IH]; intros s Hs; cbn [fold_left];
    [exact Hs|].
  now apply IH, signal_delete_well_formed.
Qed.

Lemma keeps_process_pair py_str Features extract scores data clk out :
  keeps_well_formed (process_pair py_str Features extract scores data clk out).
Proof.
  unfold process_pair, process_pair_body, _analyze_data, getitem, external.
  apply keeps_try_except.
  - apply keeps_bind; [apply keeps_check_rate_limit|].
    intros allowed. destruct (negb allowed); [apply keeps_ret|].
    apply keeps_bind.
    { destruct (dict_get "address" data); [apply keeps_ret|apply keeps_raise]. }
    intros address. apply keeps_bind; [apply keeps_cache_get|].
    intros cached. destruct (truthy cached); [apply keeps_ret|].
    apply keeps_bind.
    { apply keeps_bind; [apply keeps_emit|]. intros _.
      apply keeps_bind.
      { destruct (extract data); [apply keeps_ret|apply keeps_raise]. }
      intros f. apply keeps_bind.
      { destruct (scores pump_detect f); [apply keeps_ret|apply keeps_raise]. }
      intros p. apply keeps_bind.
      { destruct (scores rug_detect f); [apply keeps_ret|apply keeps_raise]. }
      intros r. apply keeps_ret. }
    intros analysis. apply keeps_bind; [apply keeps_cache_set|].
    intros _. apply keeps_bind.
    { destruct (dict_get "signal" analysis);
        [apply keeps_ret|apply keeps_raise]. }
    intros signal. destruct (truthy signal); [|apply keeps_ret].
    apply keeps_bind; [apply keeps_publish_signal|].
    intros _. apply keeps_ret.
  - intros e. apply keeps_bind; [apply keeps_emit|]. intros _. apply keeps_ret.
Qed.

(** * Further properties *)

(** ** The rate limiter beyond one window *)

Lemma rate_decide_room identifier limit window now e s :
  now <= rl_expires e -> rl_count e < limit ->
  rate_decide identifier limit window now (Some e) s
  = (Ok true, snd (rate_store_count identifier (rl_count e + 1) s)).
Proof.
  intros Hnow Hc. unfold rate_decide.
  destruct (rl_expires e <? now) eqn:E1; [apply Z.ltb_lt in E1; lia|].
  destruct (rl_count e >=? limit) eqn:E2; [|reflexivity].
  rewrite Z.geb_leb in E2. apply Z.leb_le in E2. lia.
Qed.

(** X2: the first call of a window is admitted whatever the limit: with a
    limit of zero or less, a fresh identifier gets one call through and
    every further call within that window is denied. *)
Theorem first_call_ignores_limit identifier limit window t0 rest s :
  limit <= 0 ->
  rate_first identifier (rate_limits s) = None ->
  Forall (fun t => t <= t0 + timedelta window) rest ->
  fst (check_rate_limit_each identifier limit window (t0 :: rest) s)
  = Ok true :: repeat (Ok false) (List.length rest).
Proof.
  intros Hl Hn Hall. cbn [check_rate_limit_each].
  rewrite (check_rate_limit_first _ _ _ _ _ Hn).
  set (s1 := set_rate_limits _ s).
  assert (He1 : rate_first identifier (rate_limits s1)
                = Some (mkRateLimit identifier 1 (t0 + timedelta window))).
  { subst s1. simpl. now apply rate_first_app_none. }
  pose proof (calls_in_open_window identifier limit window rest s1 _ He1 Hall)
    as Hrest.
  cbn [rl_count] in Hrest.
  destruct (check_rate_limit_each identifier limit window rest s1)
    as [rs s2].
  cbn [fst] in *. rewrite Hrest.
  replace (Z.to_nat (limit - 1)) with O by lia.
  now rewrite Nat.min_0_r, Nat.sub_0_r.
Qed.

Lemma window_within_check identifier limit window now down s :
  window_within identifier limit s ->
  window_within identifier limit
    (snd (check_rate_limit identifier limit window now down s)).
Proof.
  intros Hw. destruct down; [exact Hw|].
  destruct (rate_first identifier (rate_limits s)) as [e|] eqn:He.
  - destruct (Z.lt_ge_cases (rl_expires e) now) as [Hx|Hx].
    + now rewrite (check_rate_limit_expired _ _ _ _ _ _ He Hx).
    + destruct (Z.lt_ge_cases (rl_count e) limit) as [Hc|Hc].
      * rewrite (check_rate_limit_room _ _ _ _ _ _ He Hx Hc).
        intros r Hin Hid. simpl in Hin. apply in_map_iff in Hin.
        destruct Hin as [r0 [Hr0 Hin]].
        destruct (is_identifier identifier r0); subst r.
        -- simpl. lia.
        -- now apply Hw.
      * apply Z.le_ge in Hc.
        now rewrite (check_rate_limit_full _ _ _ _ _ _ He Hx Hc).
  - rewrite (check_rate_limit_first _ _ _ _ _ He).
    intros r Hin Hid. simpl in Hin. apply in_app_or in Hin.
    destruct Hin as [Hin|[<-|[]]]; [now apply Hw | simpl; lia].
Qed.

(** X3: calls made with one limit never drive the count of a window above
    that limit (above 1 when the limit is smaller): if it holds before a
    series of calls, it holds after it. *)
Theorem rate_count_stays_within identifier limit window times s :
  window_within identifier limit s ->
  window_within identifier limit
    (snd (check_rate_limit_each identifier limit window times s)).
Proof.
  revert s. induction times as [|t times IH]; intros s Hw; [exact Hw|].
  cbn [check_rate_limit_each].
  pose proof (window_within_check identifier limit window t false s Hw) as H1.
  destruct (check_rate_limit identifier limit window t false s) as [r s1].
  cbn [snd] in H1. specialize (IH s1 H1).
  destruct (check_rate_limit_each identifier limit window times s1)
    as [rs s2].
  exact IH.
Qed.

(** X4: two callers that both read an open window with room before either
    writes are both admitted, and the window counts one call more, not two:
    with one slot left, two calls pass. *)
Theorem interleaved_reads_lose_an_increment
        identifier limit window t1 t2 s e :
  rate_first identifier (rate_limits s) = Some e ->
  t1 <= rl_expires e -> t2 <= rl_expires e -> rl_count e < limit ->
  let outcome :=
    run_schedule identifier limit window [0; 1; 0; 1]%nat
                 [Calling t1; Calling t2] s in
  fst outcome = [Returned (Ok true); Returned (Ok true)]
  /\ rate_first identifier (rate_limits (snd outcome))
     = Some (mkRateLimit identifier (rl_count e + 1) (rl_expires e)).
Proof.
  intros He H1 H2 Hc. cbn [run_schedule nth_error caller_step replace_nth].
  rewrite He. unfold commit.
  rewrite (rate_decide_room identifier limit window t1 e s H1 Hc).
  cbn [nth_error replace_nth].
  rewrite (rate_decide_room identifier limit window t2 e _ H2 Hc).
  cbn [fst snd replace_nth]. split; [reflexivity|].
  simpl. now rewrite !rate_first_stored, He.
Qed.

(** X5: two callers that both find no window for the identifier: the one
    that writes first opens the window and is admitted, the other one's
    insert meets that row and its call raises [IntegrityError] instead of
    returning. *)
Theorem racing_first_calls_one_raises identifier limit window t1 t2 s :
  rate_first identifier (rate_limits s) = None ->
  let outcome :=
    run_schedule identifier limit window [0; 1; 0; 1]%nat
                 [Calling t1; Calling t2] s in
  fst outcome = [Returned (Ok true); Returned (Raise IntegrityError)]
  /\ rate_limits (snd outcome)
     = rate_limits s ++ [mkRateLimit identifier 1 (t1 + timedelta window)].
Proof.
  intros Hn outcome.
  assert (Hrun : outcome
                 = ([Returned (Ok true); Returned (Raise IntegrityError)],
                    set_rate_limits
                      (rate_limits s
                         ++ [mkRateLimit identifier 1 (t1 + timedelta window)])
                      s)).
  { subst outcome. cbn [run_schedule nth_error caller_step replace_nth].
    rewrite Hn. unfold commit, rate_decide, bind, rate_add.
    cbn [rl_identifier]. rewrite (find_none_existsb _ _ Hn).
    unfold ret. cbn [nth_error replace_nth rate_limits set_rate_limits].
    rewrite existsb_app. cbn [existsb]. unfold is_identifier at 2.
    cbn [rl_identifier]. now rewrite String.eqb_refl, orb_true_r. }
  rewrite Hrun. now split.
Qed.

(** ** Invariants through a run of the pipeline *)

Lemma preserves_ret I {A} (a : A) : preserves I (ret a).
Proof. intros s H. exact H. Qed.

Lemma preserves_raise I {A} (e : exn) : preserves I (@raise A e).
Proof. intros s H. exact H. Qed.

Lemma preserves_bind I {A B} (m : M A) (k : A -> M B) :
  preserves I m -> (forall a, preserves I (k a)) -> preserves I (bind m k).
Proof.
  intros Hm Hk s Hs. unfold bind. specialize (Hm s Hs).
  destruct (m s) as [[a|e] s']; cbn [snd] in *; [now apply Hk | exact Hm].
Qed.

Lemma preserves_try_except I {A} (m : M A) (h : exn -> M A) :
  preserves I m -> (forall e, preserves I (h e)) ->
  preserves I (try_except m h).
Proof.
  intros Hm Hh s Hs. unfold try_except. specialize (Hm s Hs).
  destruct (m s) as [[a|e] s']; cbn [snd] in *; [exact Hm | now apply Hh].
Qed.

Lemma preserves_cache_get I key now down : preserves I (cache_get key now down).
Proof.
  intros s Hs. unfold cache_get. destruct down; [exact Hs|].
  now destruct (cache_live key now (cache_store s)).
Qed.

Create HintDb preserves.
#[local] Hint Resolve preserves_ret preserves_raise preserves_cache_get
  : preserves.

Section Frames.

Variable py_str : pyval -> string.
Variable Features : Type.
Variable _extract_features : dict -> option Features.
Variable score_samples : Detector -> Features -> option Z.

Local Abbreviation run :=
  (process_pair py_str Features _extract_features score_samples).

Variable I : State -> Prop.
Hypothesis I_emit : forall o s, I s -> I (emit_output o s).
Hypothesis I_cache_set :
  forall key value ttl now down, preserves I (cache_set key value ttl now down).
Hypothesis I_publish :
  forall channel message now d1 d2,
    preserves I (publish_signal py_str channel message now d1 d2).

Lemma preserves_emit o : preserves I (emit o).
Proof. intros s Hs. now apply I_emit. Qed.

Lemma preserves_analyze data now :
  preserves I (_analyze_data Features _extract_features score_samples data now).
Proof.
  unfold _analyze_data, external.
  apply preserves_bind; [apply preserves_emit|]. intros _.
  apply preserves_bind;
    [destruct (_extract_features data); auto with preserves|].
  intros f. apply preserves_bind;
    [destruct (score_samples pump_detect f); auto with preserves|].
  intros p. apply preserves_bind;
    [destruct (score_samples rug_detect f); auto with preserves|].
  intros r. apply preserves_ret.
Qed.

(** What holds once the limiter has answered, and is kept by the writes of
    the later steps, holds when the run is over. *)
Lemma process_pair_after_check data clk out s :
  I (snd (check_rate_limit "api_requests" 10 1 (at_rate clk) (rate_down out)
                           s)) ->
  I (snd (run data clk out s)).
Proof.
  intros H1. unfold process_pair, process_pair_body.
  unfold try_except, bind at 1.
  destruct (check_rate_limit "api_requests" 10 1 (at_rate clk)
              (rate_down out) s) as [[allowed|e] s1]; cbn [snd] in H1.
  2: { cbn. now apply I_emit. }
  match goal with
  | |- I (snd (let (r, s') := ?tail s1 in _)) =>
      assert (Ht : preserves I tail)
  end.
  { destruct (negb allowed); [apply preserves_ret|].
    apply preserves_bind.
    { unfold getitem. destruct (dict_get "address" data); auto with preserves. }
    intros address. apply preserves_bind; [apply preserves_cache_get|].
    intros cached. destruct (truthy cached); [apply preserves_ret|].
    apply preserves_bind; [apply preserves_analyze|].
    intros analysis. apply preserves_bind; [apply I_cache_set|].
    intros _. apply preserves_bind.
    { unfold getitem. destruct (dict_get "signal" analysis);
        auto with preserves. }
    intros signal. destruct (truthy signal); [|apply preserves_ret].
    apply preserves_bind; [apply I_publish|].
    intros _. apply preserves_ret. }
  specialize (Ht s1 H1).
  match goal with
  | |- I (snd (let (r, s') := ?tail s1 in _)) =>
      destruct (tail s1) as [[a|e] s2]
  end; cbn [snd] in Ht; [exact Ht|].
  cbn. now apply I_emit.
Qed.

End Frames.

Lemma cache_set_cache down key value ttl now s :
  cache_store (snd (cache_set key value ttl now down s)) = cache_store s
  \/ cache_store (snd (cache_set key value ttl now down s))
     = cache_merge (mkCacheStore key value (now + timedelta ttl))
                   (cache_store s).
Proof. destruct down; [now left | now right]. Qed.

Lemma cache_set_other_tables down key value ttl now s :
  let s' := snd (cache_set key value ttl now down s) in
  rate_limits s' = rate_limits s
  /\ trading_signals s' = trading_signals s
  /\ signal_seq s' = signal_seq s.
Proof. destruct down; simpl; tauto. Qed.

Lemma cache_merge_keeps_keys entry t :
  incl (map cs_key t) (map cs_key (cache_merge entry t))
  /\ (List.length t <= List.length (cache_merge entry t))%nat.
Proof.
  destruct (existsb (is_key (cs_key entry)) t) eqn:Hex.
  - rewrite cache_merge_keys by exact Hex. split; [apply incl_refl|].
    unfold cache_merge. rewrite Hex, length_map. lia.
  - unfold cache_merge. rewrite Hex, map_app, length_app.
    split; [now apply incl_appl, incl_refl | lia].
Qed.

(** X6: a run of [process_pair] changes the rate table exactly as its one
    call of the limiter does: every event the limiter sees is counted, be it
    answered from the cache, failed or completed, and nothing else in the
    run writes to the windows. *)
Theorem process_pair_charges_one_call
        py_str Features extract scores data clk out s :
  rate_limits (snd (process_pair py_str Features extract scores data clk out
                                 s))
  = rate_limits
      (snd (check_rate_limit "api_requests" 10 1 (at_rate clk)
                             (rate_down out) s)).
Proof.
  apply (process_pair_after_check py_str Features extract scores
           (fun s' => rate_limits s'
                      = rate_limits
                          (snd (check_rate_limit "api_requests" 10 1
                                  (at_rate clk) (rate_down out) s)))).
  - intros o s0 H. exact H.
  - intros key value ttl now down s0 H.
    now rewrite (proj1 (cache_set_other_tables down key value ttl now s0)).
  - intros channel message now d1 d2 s0 H.
    now rewrite (proj1 (proj2 (publish_signal_table py_str channel message
                                 now d1 d2 s0))).
  - reflexivity.
Qed.

(** X7: a run of [process_pair] never takes a row out of the cache: every
    key stored before the run is stored after it, expired or not, and the
    table is at least as long. *)
Theorem process_pair_never_drops_cache_rows
        py_str Features extract scores data clk out s :
  let s' := snd (process_pair py_str Features extract scores data clk out s) in
  incl (map cs_key (cache_store s)) (map cs_key (cache_store s'))
  /\ (List.length (cache_store s) <= List.length (cache_store s'))%nat.
Proof.
  apply (process_pair_after_check py_str Features extract scores
           (fun s' =>
              incl (map cs_key (cache_store s)) (map cs_key (cache_store s'))
              /\ (List.length (cache_store s)
                  <= List.length (cache_store s'))%nat)).
  - intros o s0 H. exact H.
  - intros key value ttl now down s0 [Hk Hl].
    destruct (cache_set_cache down key value ttl now s0) as [->| ->];
      [now split|].
    destruct (cache_merge_keeps_keys
                (mkCacheStore key value (now + timedelta ttl))
                (cache_store s0)) as [Hk' Hl'].
    split; [eapply incl_tran; eassumption | lia].
  - intros channel message now d1 d2 s0 H.
    now rewrite (proj1 (publish_signal_table py_str channel message
                          now d1 d2 s0)).
  - rewrite (proj1 (check_rate_limit_tables _ _ _ _ _ _)).
    split; [apply incl_refl | lia].
Qed.

(** ** The queue over time *)

Lemma sorted_app_one (ids : list Z) (next : Z) :
  StronglySorted Z.lt ids -> Forall (fun i => i < next) ids ->
  StronglySorted Z.lt (ids ++ [next]).
Proof.
  induction ids as [|i ids IH]; intros Hs Hb; cbn [app].
  - repeat constructor.
  - inversion Hs as [|? ? Hs' Hall]; subst.
    inversion Hb as [|? ? Hi Hb']; subst.
    constructor; [now apply IH|].
    apply Forall_app. split; [exact Hall | repeat constructor; exact Hi].
Qed.

Lemma sorted_ids_filter (keep : TradingSignal -> bool) t :
  StronglySorted Z.lt (map ts_id t) ->
  StronglySorted Z.lt (map ts_id (filter keep t)).
Proof.
  induction t as [|row t IH]; cbn [filter map]; intros Hs; [constructor|].
  inversion Hs as [|? ? Hs' Hall]; subst.
  destruct (keep row); cbn [map]; [|now apply IH].
  constructor; [now apply IH|].
  rewrite Forall_forall in *. intros i Hi. apply Hall.
  apply in_map_iff in Hi. destruct Hi as [r [<- Hr]].
  apply filter_In in Hr. apply in_map. tauto.
Qed.

Lemma ids_ascending_same s s' :
  trading_signals s' = trading_signals s -> signal_seq s' = signal_seq s ->
  ids_ascending s -> ids_ascending s'.
Proof. unfold ids_ascending. now intros -> ->. Qed.

Lemma ids_ascending_publish py_str channel message now d1 d2 :
  preserves ids_ascending (publish_signal py_str channel message now d1 d2).
Proof.
  intros s [Hs Hb].
  destruct (publish_signal_table py_str channel message now d1 d2 s)
    as [_ [_ [[Ht Hq]|[Ht Hq]]]].
  - now apply (ids_ascending_same s).
  - unfold ids_ascending. rewrite Ht, Hq, map_app. cbn [map ts_id]. split.
    + apply sorted_app_one; [exact Hs|].
      rewrite Forall_forall in *. intros i Hi. apply in_map_iff in Hi.
      destruct Hi as [r [<- Hr]]. now apply Hb.
    + apply Forall_app. split.
      * eapply Forall_impl; [|exact Hb]. cbn. intros; lia.
      * repeat constructor. cbn. lia.
Qed.

Lemma ids_ascending_delete msg s :
  ids_ascending s -> ids_ascending (signal_delete msg s).
Proof.
  intros [Hs Hb]. split; cbn.
  - now apply sorted_ids_filter.
  - rewrite Forall_forall in *. intros r Hr. apply filter_In in Hr.
    now apply Hb.
Qed.

Lemma ids_ascending_consume order_by channel s :
  ids_ascending s -> ids_ascending (snd (consume_signals order_by channel s)).
Proof.
  unfold consume_signals. cbn [snd].
  generalize (fetch_signals order_by channel s). intros batch. revert s.
  induction batch as [|m batch IH]; intros s Hs; cbn [fold_left];
    [exact Hs|].
  now apply IH, ids_ascending_delete.
Qed.

Lemma ids_ascending_process py_str Features extract scores data clk out s :
  ids_ascending s ->
  ids_ascending
    (snd (process_pair py_str Features extract scores data clk out s)).
Proof.
  intros Hs.
  apply (process_pair_after_check py_str Features extract scores
           ids_ascending).
  - intros o s0 H. exact H.
  - intros key value ttl now down s0 H.
    destruct (cache_set_other_tables down key value ttl now s0)
      as [_ [Ht Hq]].
    now apply (ids_ascending_same s0).
  - intros. apply ids_ascending_publish.
  - destruct (check_rate_limit_tables "api_requests" 10 1 (at_rate clk)
                (rate_down out) s) as [_ [Ht [Hq _]]].
    now apply (ids_ascending_same s).
Qed.

(** X8: in every state the analyzer can reach from empty tables, by any
    sequence of limiter calls, cache reads and writes, publishes, consumes
    and pipeline runs, failed or not, the primary keys of the three tables
    are unique, and the ids of the stored signals increase along the table
    and lie below the sequence. *)
Theorem reachable_invariants s :
  reachable s -> well_formed s /\ ids_ascending s.
Proof.
  intros H. induction H as
      [ | s identifier limit window now down _ [Hw Hi]
        | s key now down _ [Hw Hi]
        | s key value ttl now down _ [Hw Hi]
        | s py_str channel message now d1 d2 _ [Hw Hi]
        | s order_by channel Hord _ [Hw Hi]
        | s py_str Features extract scores data clk out _ [Hw Hi] ].
  - split; split; cbn; constructor.
  - split; [now apply keeps_check_rate_limit|].
    destruct (check_rate_limit_tables identifier limit window now down s)
      as [_ [Ht [Hq _]]].
    now apply (ids_ascending_same s).
  - split; [now apply keeps_cache_get|].
    now apply (preserves_cache_get ids_ascending).
  - split; [now apply keeps_cache_set|].
    destruct (cache_set_other_tables down key value ttl now s) as [_ [Ht Hq]].
    now apply (ids_ascending_same s).
  - split; [now apply keeps_publish_signal | now apply ids_ascending_publish].
  - split; [now apply consume_signals_well_formed
           | now apply ids_ascending_consume].
  - split; [now apply keeps_process_pair | now apply ids_ascending_process].
Qed.

Lemma order_by_nil order_by :
  orders_by_created_at order_by -> order_by [] = [].
Proof.
  intros Hord. destruct (Hord []) as [Hp _]. now apply Permutation_nil.
Qed.

Lemma order_by_one order_by row :
  orders_by_created_at order_by -> order_by [row] = [row].
Proof.
  intros Hord. destruct (Hord [row]) as [Hp _].
  now apply Permutation_length_1_inv.
Qed.

(** X9: a consume on a channel that holds no message yields nothing and
    leaves the state exactly as it was, whatever other channels hold. *)
Theorem consume_empty_channel order_by channel s :
  orders_by_created_at order_by ->
  filter (on_channel channel) (trading_signals s) = [] ->
  consume_signals order_by channel s = ([], s).
Proof.
  intros Hord Hempty. unfold consume_signals, fetch_signals.
  rewrite Hempty, (order_by_nil _ Hord). reflexivity.
Qed.

(** The rows a batch leaves in the table. *)
Lemma deleted_table batch :
  forall s,
    trading_signals
      (fold_left (fun st msg => signal_delete msg st) batch s)
    = filter (fun r => negb (existsb (fun m => ts_id r =? ts_id m) batch))
             (trading_signals s).
Proof.
  induction batch as [|m batch IH]; intros s; cbn [fold_left].
  - cbn [existsb negb]. induction (trading_signals s) as [|r t IHt];
      [reflexivity|]. cbn [filter]. now rewrite <- IHt.
  - rewrite IH. unfold signal_delete at 1.
    cbn [trading_signals set_trading_signals].
    induction (trading_signals s) as [|r t IHt]; [reflexivity|].
    cbn [filter existsb].
    destruct (ts_id r =? ts_id m); cbn [negb orb]; [exact IHt|].
    cbn [filter]. now rewrite IHt.
Qed.

Lemma filter_twice {A} (f g : A -> bool) (l : list A) :
  (forall x, In x l -> f x = true -> g x = true) ->
  filter f (filter g l) = filter f l.
Proof.
  induction l as [|x l IH]; intros H; [reflexivity|]. cbn [filter].
  assert (IH' : filter f (filter g l) = filter f l).
  { apply IH. intros y Hy. apply H. now right. }
  destruct (g x) eqn:Hg; cbn [filter].
  - now rewrite IH'.
  - destruct (f x) eqn:Hf; [|exact IH'].
    rewrite (H x (or_introl eq_refl) Hf) in Hg. discriminate.
Qed.

Lemma filter_swap {A} (f g : A -> bool) (l : list A) :
  filter f (filter g l) = filter g (filter f l).
Proof.
  induction l as [|x l IH]; [reflexivity|]. cbn [filter].
  destruct (g x) eqn:Hg, (f x) eqn:Hf; cbn [filter];
    rewrite ?Hg, ?Hf, IH; reflexivity.
Qed.

(** X11: a consume on one channel leaves the rows of every other channel in
    the table, in their order, so that a read of another channel returns
    what it would have returned before. *)
Theorem consume_leaves_other_channels order_by order_by' channel other s :
  orders_by_created_at order_by ->
  well_formed s ->
  other <> channel ->
  let s' := snd (consume_signals order_by channel s) in
  filter (on_channel other) (trading_signals s')
  = filter (on_channel other) (trading_signals s)
  /\ fetch_signals order_by' other s' = fetch_signals order_by' other s.
Proof.
  intros Hord Hwf Hne s'.
  assert (Hrows : filter (on_channel other) (trading_signals s')
                  = filter (on_channel other) (trading_signals s)).
  { subst s'. unfold consume_signals. cbn [snd]. rewrite deleted_table.
    apply filter_twice. intros r Hr Hch.
    apply negb_true_iff. destruct (existsb _ _) eqn:Hex; [|reflexivity].
    exfalso. apply existsb_exists in Hex. destruct Hex as [m [Hm Hid]].
    apply Z.eqb_eq in Hid.
    destruct (fetch_signals_in _ _ _ _ Hord Hm) as [Hmin Hmch].
    assert (r = m) as ->.
    { apply (signal_id_unique (trading_signals s)); try assumption.
      apply Hwf. }
    apply String.eqb_eq in Hch. congruence. }
  split; [exact Hrows|]. unfold fetch_signals. now rewrite Hrows.
Qed.

Lemma sorted_app_le {A} (R : A -> A -> Prop) (l1 l2 : list A) :
  StronglySorted R (l1 ++ l2) ->
  forall a b, In a l1 -> In b l2 -> R a b.
Proof.
  induction l1 as [|x l1 IH]; cbn [app]; intros Hs a b Ha Hb; [contradiction|].
  inversion Hs as [|? ? Hs' Hall]; subst.
  destruct Ha as [->|Ha]; [|now apply IH].
  rewrite Forall_forall in Hall. apply Hall. apply in_or_app. now right.
Qed.

(** X12: whatever the stamps are, a consume hands out a batch in ascending
    [created_at], and it is the oldest part of the channel: no message of
    the channel left in the table is older than a message of the batch. *)
Theorem consume_oldest_first order_by channel s :
  orders_by_created_at order_by ->
  let batch := fetch_signals order_by channel s in
  let s' := snd (consume_signals order_by channel s) in
  StronglySorted created_le batch
  /\ forall m r, In m batch -> In r (trading_signals s') ->
                 ts_channel r = channel ->
                 ts_created_at m <= ts_created_at r.
Proof.
  intros Hord batch s'.
  destruct (Hord (filter (on_channel channel) (trading_signals s)))
    as [Hp Hs].
  set (sorted := order_by (filter (on_channel channel) (trading_signals s)))
    in *.
  assert (Hsplit : sorted = batch ++ skipn 100 sorted)
    by (symmetry; apply firstn_skipn).
  split.
  - rewrite Hsplit in Hs. clear Hsplit.
    induction batch as [|x l IH]; [constructor|].
    cbn [app] in Hs. inversion Hs as [|? ? Hs' Hall]; subst.
    constructor; [now apply IH|].
    apply Forall_app in Hall. tauto.
  - intros m r Hm Hr Hch.
    subst s'. unfold consume_signals in Hr. cbn [snd] in Hr.
    apply deleted_rows in Hr. destruct Hr as [Hin Hids].
    assert (Hrs : In r sorted).
    { apply (Permutation_in _ Hp). apply filter_In. split; [exact Hin|].
      now apply String.eqb_eq. }
    rewrite Hsplit in Hrs. apply in_app_or in Hrs.
    destruct Hrs as [Hrb|Hrest].
    + exfalso. now apply (Hids r Hrb).
    + rewrite Hsplit in Hs. exact (sorted_app_le _ _ _ Hs m r Hm Hrest).
Qed.

Lemma keep_after_firstn n :
  forall rows,
    NoDup (map ts_id rows) ->
    filter (fun r => negb (existsb (fun m => ts_id r =? ts_id m)
                                   (firstn n rows))) rows
    = skipn n rows.
Proof.
  induction n as [|n IH]; intros rows Hnd.
  - cbn [firstn existsb negb skipn].
    induction rows as [|r t IHt]; [reflexivity|]. cbn [filter].
    f_equal. apply IHt. now inversion Hnd.
  - destruct rows as [|x rest]; [reflexivity|].
    cbn [firstn skipn filter existsb]. rewrite Z.eqb_refl. cbn [orb negb].
    inversion Hnd as [|? ? Hfresh Hnd']; subst.
    rewrite <- (IH rest Hnd'). apply filter_ext_in. intros r Hr.
    assert (Hne : (ts_id r =? ts_id x) = false).
    { apply Z.eqb_neq. intros Heq. apply Hfresh. rewrite <- Heq.
      now apply in_map. }
    now rewrite Hne.
Qed.

Lemma sorted_skipn {A} (R : A -> A -> Prop) n :
  forall l, StronglySorted R l -> StronglySorted R (skipn n l).
Proof.
  induction n as [|n IH]; intros [|x l] Hs; cbn [skipn];
    try exact Hs. apply IH. now inversion Hs.
Qed.

(** X13: on a channel whose stamps strictly increase along the table, two
    consumes in a row hand out the first hundred messages and then the next
    hundred, in publish order, none lost and none twice. *)
Theorem consume_twice_in_order order_by order_by' channel s :
  orders_by_created_at order_by ->
  orders_by_created_at order_by' ->
  well_formed s ->
  let rows := filter (on_channel channel) (trading_signals s) in
  StronglySorted Z.lt (map ts_created_at rows) ->
  fst (consume_signals order_by channel s)
  = map ts_message (firstn 100 rows)
  /\ fst (consume_signals order_by' channel
                          (snd (consume_signals order_by channel s)))
     = map ts_message (firstn 100 (skipn 100 rows)).
Proof.
  intros Hord Hord' Hwf rows Hsorted.
  destruct (Hord rows) as [Hp Hs].
  assert (Hfirst : fetch_signals order_by channel s = firstn 100 rows).
  { unfold fetch_signals. fold rows.
    now rewrite (sorted_arrangement_unique _ Hsorted _ Hp Hs). }
  split; [unfold consume_signals; cbn [fst]; now rewrite Hfirst|].
  assert (Hleft :
            filter (on_channel channel)
                   (trading_signals (snd (consume_signals order_by channel s)))
            = skipn 100 rows).
  { unfold consume_signals. cbn [snd]. rewrite deleted_table, Hfirst.
    rewrite filter_swap. fold rows. apply keep_after_firstn.
    apply kept_rows_unique_ids, Hwf. }
  unfold consume_signals at 1. cbn [fst]. unfold fetch_signals.
  rewrite Hleft.
  assert (Hsk : StronglySorted Z.lt (map ts_created_at (skipn 100 rows))).
  { rewrite <- skipn_map. now apply sorted_skipn. }
  destruct (Hord' (skipn 100 rows)) as [Hp' Hs'].
  now rewrite (sorted_arrangement_unique _ Hsk _ Hp' Hs').
Qed.

(** ** The ways a run of the pipeline ends early *)

Section Paths.

Variable py_str : pyval -> string.
Variable Features : Type.
Variable _extract_features : dict -> option Features.
Variable score_samples : Detector -> Features -> option Z.

Local Abbreviation run :=
  (process_pair py_str Features _extract_features score_samples).
Local Abbreviation analyze :=
  (_analyze_data Features _extract_features score_samples).


(** X15: an event that arrives while the window is open and holds ten calls
    is dropped without a trace: the run returns [None], prints nothing,
    reads no cache, runs no analysis and leaves the state as it was. *)
Theorem process_pair_denied_is_silent data clk out s e :
  rate_down out = false ->
  rate_first "api_requests" (rate_limits s) = Some e ->
  at_rate clk <= rl_expires e -> 10 <= rl_count e ->
  run data clk out s = (Ok PNone, s).
Proof.
  intros Hrd He Hx Hc. unfold process_pair, try_except, process_pair_body.
  unfold bind at 1. apply Z.le_ge in Hc.
  now rewrite Hrd, (check_rate_limit_full _ _ _ _ _ _ He Hx Hc).
Qed.

(** X16: an event without an [address] is counted by the limiter and then
    abandoned: the [KeyError] is printed, the run returns [None], and
    neither the cache nor the queue is touched. *)
Theorem process_pair_missing_address data clk out s :
  rate_down out = false ->
  rate_admits "api_requests" 10 (at_rate clk) (rate_limits s) = true ->
  dict_get "address" data = None ->
  let s' := snd (run data clk out s) in
  fst (run data clk out s) = Ok PNone
  /\ journal s' = Printed (KeyError "address") :: journal s
  /\ cache_store s' = cache_store s
  /\ trading_signals s' = trading_signals s
  /\ rate_limits s'
     = rate_limits
         (snd (check_rate_limit "api_requests" 10 1 (at_rate clk) false s)).
Proof.
  intros Hrd Hrate Haddr s'.
  destruct (rate_admits_check _ _ 1 _ _ Hrate)
    as [s1 [Hcheck [Hc1 [Ht1 [Hq1 Hj1]]]]].
  assert (Hrun : run data clk out s
                 = (Ok PNone, emit_output (Printed (KeyError "address")) s1)).
  { unfold process_pair, try_except, process_pair_body.
    rewrite Hrd. unfold bind at 1. rewrite Hcheck. cbn [negb].
    unfold bind at 1, getitem at 1. now rewrite Haddr. }
  subst s'. rewrite Hrun, Hcheck. cbn. repeat split; congruence.
Qed.

Lemma analyze_data_fails data now s :
  (_extract_features data = None
   \/ exists features,
        _extract_features data = Some features
        /\ (score_samples pump_detect features = None
            \/ score_samples rug_detect features = None)) ->
  analyze data now s = (Raise AnalysisFailure, emit_output (Analyzed data) s).
Proof.
  intros Hfail. unfold _analyze_data, bind, emit, external.
  destruct Hfail as [Hf|[features [Hf Hs]]]; rewrite Hf; [reflexivity|].
  unfold ret at 1.
  destruct (score_samples pump_detect features) as [p|] eqn:Hp;
    [|reflexivity].
  destruct Hs as [Hs|Hs]; [discriminate|].
  unfold ret at 1. now rewrite Hs.
Qed.

(** X17: when the feature extraction or one of the two detectors fails, the
    event is abandoned after the analysis was started: the failure is
    printed, the run returns [None], nothing is cached and nothing is
    published, so the same event is analysed anew when it comes again. *)
Theorem process_pair_analysis_failure data clk out s address :
  rate_down out = false -> lookup_down out = false ->
  rate_admits "api_requests" 10 (at_rate clk) (rate_limits s) = true ->
  dict_get "address" data = Some address ->
  cache_live (pair_key py_str address) (at_lookup clk) (cache_store s)
  = None ->
  (_extract_features data = None
   \/ exists features,
        _extract_features data = Some features
        /\ (score_samples pump_detect features = None
            \/ score_samples rug_detect features = None)) ->
  let s' := snd (run data clk out s) in
  fst (run data clk out s) = Ok PNone
  /\ journal s' = Printed AnalysisFailure :: Analyzed data :: journal s
  /\ cache_store s' = cache_store s
  /\ trading_signals s' = trading_signals s.
Proof.
  intros Hrd Hld Hrate Haddr Hmiss Hfail s'.
  destruct (rate_admits_check _ _ 1 _ _ Hrate)
    as [s1 [Hcheck [Hc1 [Ht1 [Hq1 Hj1]]]]].
  assert (Hrun : run data clk out s
                 = (Ok PNone,
                    emit_output (Printed AnalysisFailure)
                                (emit_output (Analyzed data) s1))).
  { unfold process_pair, try_except, process_pair_body.
    rewrite Hrd, Hld. unfold bind at 1. rewrite Hcheck. cbn [negb].
    unfold bind at 1, getitem at 1. rewrite Haddr. unfold ret at 1.
    rewrite <- Hc1 in Hmiss.
    unfold bind at 1, cache_get. rewrite Hmiss. cbn [truthy].
    unfold bind at 1. now rewrite (analyze_data_fails _ _ _ Hfail). }
  subst s'. rewrite Hrun. cbn. repeat split; congruence.
Qed.

(** X18: when the store is down at [cache_set], the analysis that was just
    made is thrown away: the failure is printed, nothing is cached, and
    nothing is published even for an event that carries a truthy
    [signal]. *)
Theorem process_pair_store_outage data clk out s address features pump rug :
  rate_down out = false -> lookup_down out = false ->
  store_down out = true ->
  rate_admits "api_requests" 10 (at_rate clk) (rate_limits s) = true ->
  dict_get "address" data = Some address ->
  cache_live (pair_key py_str address) (at_lookup clk) (cache_store s)
  = None ->
  _extract_features data = Some features ->
  score_samples pump_detect features = Some pump ->
  score_samples rug_detect features = Some rug ->
  let s' := snd (run data clk out s) in
  fst (run data clk out s) = Ok PNone
  /\ journal s' = Printed StoreUnavailable :: Analyzed data :: journal s
  /\ cache_store s' = cache_store s
  /\ trading_signals s' = trading_signals s.
Proof.
  intros Hrd Hld Hsd Hrate Haddr Hmiss Hf Hp Hr s'.
  destruct (rate_admits_check _ _ 1 _ _ Hrate)
    as [s1 [Hcheck [Hc1 [Ht1 [Hq1 Hj1]]]]].
  assert (Hrun : run data clk out s
                 = (Ok PNone,
                    emit_output (Printed StoreUnavailable)
                                (emit_output (Analyzed data) s1))).
  { unfold process_pair, try_except, process_pair_body.
    rewrite Hrd, Hld, Hsd. unfold bind at 1. rewrite Hcheck. cbn [negb].
    unfold bind at 1, getitem at 1. rewrite Haddr. unfold ret at 1.
    rewrite <- Hc1 in Hmiss.
    unfold bind at 1, cache_get. rewrite Hmiss. cbn [truthy].
    unfold bind at 1.
    rewrite (analyze_data_ok Features _extract_features score_samples
               _ _ _ _ _ _ Hf Hp Hr).
    reflexivity. }
  subst s'. rewrite Hrun. cbn. repeat split; congruence.
Qed.

Lemma process_pair_signals_run data clk out s res sf :
  run data clk out s = (res, sf) ->
  (trading_signals sf = trading_signals s /\ signal_seq sf = signal_seq s)
  \/ exists address analysis signal,
       dict_get "address" data = Some address
       /\ dict_get "signal" analysis = Some signal
       /\ truthy signal = true
       /\ trading_signals sf
          = trading_signals s
              ++ [mkTradingSignal (signal_seq s) "trading" (PDict analysis)
                                  (at_publish clk)]
       /\ signal_seq sf = signal_seq s + 1
       /\ cache_store sf
          = cache_merge
              (mkCacheStore (pair_key py_str address) (PDict analysis)
                            (at_store clk + timedelta default_ttl))
              (cache_store s).
Proof.
  intros Hrun.
  unfold process_pair, try_except, process_pair_body in Hrun.
  unfold bind at 1 in Hrun.
  pose proof (check_rate_limit_tables "api_requests" 10 1 (at_rate clk)
                (rate_down out) s) as [Hc1 [Ht1 [Hq1 _]]].
  destruct (check_rate_limit "api_requests" 10 1 (at_rate clk)
              (rate_down out) s) as [[allowed|e] s1];
    cbn [snd] in Hc1, Ht1, Hq1;
    [|cbn in Hrun; inversion Hrun; subst; left; cbn; split; congruence].
  destruct allowed; cbn [negb] in Hrun;
    [|cbn in Hrun; inversion Hrun; subst; left; cbn; split; congruence].
  unfold bind at 1, getitem at 1 in Hrun.
  destruct (dict_get "address" data) as [address|];
    [|cbn in Hrun; inversion Hrun; subst; left; cbn; split; congruence].
  unfold ret at 1 in Hrun. unfold bind at 1, cache_get in Hrun.
  destruct (lookup_down out);
    [cbn in Hrun; inversion Hrun; subst; left; cbn; split; congruence|].
  assert (Hmiss :
    (let (r, s') :=
       (analysis <- analyze data (at_analysis clk) ;;
        cache_set (pair_key py_str address) (PDict analysis)
                  default_ttl (at_store clk) (store_down out) ;;;
        signal <- getitem analysis "signal" ;;
        if truthy signal
        then publish_signal py_str "trading" (PDict analysis)
                            (at_publish clk) (insert_down out)
                            (notify_down out) ;;;
             ret PNone
        else ret PNone) s1 in
     match r with
     | Ok a => (Ok a, s')
     | Raise e => (emit (Printed e) ;;; ret PNone) s'
     end) = (res, sf) ->
    (trading_signals sf = trading_signals s /\ signal_seq sf = signal_seq s)
    \/ exists analysis signal,
         dict_get "signal" analysis = Some signal
         /\ truthy signal = true
         /\ trading_signals sf
            = trading_signals s
                ++ [mkTradingSignal (signal_seq s) "trading" (PDict analysis)
                                    (at_publish clk)]
         /\ signal_seq sf = signal_seq s + 1
         /\ cache_store sf
            = cache_merge
                (mkCacheStore (pair_key py_str address) (PDict analysis)
                              (at_store clk + timedelta default_ttl))
                (cache_store s)).
  { clear Hrun. intros Hrun. unfold bind at 1 in Hrun.
    pose proof (analyze_data_tables Features _extract_features score_samples
                  data (at_analysis clk) s1) as [Ha [_ [Hat [Haq _]]]].
    destruct (analyze data (at_analysis clk) s1) as [[analysis|e] s2];
      cbn [snd] in Ha, Hat, Haq;
      [|cbn in Hrun; inversion Hrun; subst; left; cbn; split; congruence].
    unfold bind at 1, cache_set, commit in Hrun.
    destruct (store_down out);
      [cbn in Hrun; inversion Hrun; subst; left; cbn; split; congruence|].
    unfold bind, getitem in Hrun.
    destruct (dict_get "signal" analysis) as [sig|] eqn:Hsig;
      [|cbn in Hrun; inversion Hrun; subst; left; cbn; split; congruence].
    unfold ret at 1 in Hrun.
    destruct (truthy sig) eqn:Htruthy;
      [|cbn in Hrun; inversion Hrun; subst; left; cbn; split; congruence].
    unfold publish_signal, bind, commit, emit, ret in Hrun.
    destruct (insert_down out);
      [cbn in Hrun; inversion Hrun; subst; left; cbn; split; congruence|].
    right. exists analysis, sig.
    split; [exact Hsig|]. split; [exact Htruthy|].
    destruct (notify_down out); cbn in Hrun; inversion Hrun; subst; cbn;
      repeat split; congruence. }
  destruct (cache_live (pair_key py_str address) (at_lookup clk)
              (cache_store s1)) as [r|].
  - destruct (truthy (cs_value r)) eqn:Ht.
    + cbn in Hrun. inversion Hrun; subst. left. split; congruence.
    + destruct (Hmiss Hrun) as [H|[a [sg H]]]; [now left|].
      right. now exists address, a, sg.
  - cbn [truthy] in Hrun.
    destruct (Hmiss Hrun) as [H|[a [sg H]]]; [now left|].
    right. now exists address, a, sg.
Qed.

(** X19: a run of [process_pair] never deletes a signal and appends at most
    one, on the channel ["trading"] with the next id; when it does, the
    payload is a record whose [signal] is truthy and that very record is
    what the run put in the cache under the key of the event. *)
Theorem process_pair_publishes_only_cached data clk out s :
  let s' := snd (run data clk out s) in
  (trading_signals s' = trading_signals s /\ signal_seq s' = signal_seq s)
  \/ exists address analysis signal,
       dict_get "address" data = Some address
       /\ dict_get "signal" analysis = Some signal
       /\ truthy signal = true
       /\ trading_signals s'
          = trading_signals s
              ++ [mkTradingSignal (signal_seq s) "trading" (PDict analysis)
                                  (at_publish clk)]
       /\ signal_seq s' = signal_seq s + 1
       /\ cache_store s'
          = cache_merge
              (mkCacheStore (pair_key py_str address) (PDict analysis)
                            (at_store clk + timedelta default_ttl))
              (cache_store s).
Proof.
  intros s'. subst s'.
  destruct (run data clk out s) as [res sf] eqn:Hrun. cbn [snd].
  exact (process_pair_signals_run data clk out s res sf Hrun).
Qed.

End Paths.

(** ** Records and keys *)

Lemma dict_set_keys k v d x :
  In x (map fst (dict_set k v d)) -> x = k \/ In x (map fst d).
Proof.
  induction d as [|[k' v'] rest IH]; cbn [dict_set map fst In].
  - intros [<-|[]]. now left.
  - destruct (String.eqb k' k) eqn:E; cbn [map fst In].
    + intros [<-|H]; [now left | right; now right].
    + intros [<-|H]; [right; now left|].
      destruct (IH H) as [->|H']; [now left | right; now right].
Qed.

Lemma dict_set_keys_unique k v d :
  NoDup (map fst d) -> NoDup (map fst (dict_set k v d)).
Proof.
  induction d as [|[k' v'] rest IH]; cbn [dict_set map fst]; intros Hnd.
  - repeat constructor. intros [].
  - apply NoDup_cons_iff in Hnd. destruct Hnd as [Hfresh Hrest].
    destruct (String.eqb k' k) eqn:E; cbn [map fst].
    + apply String.eqb_eq in E. subst k'. now apply NoDup_cons_iff.
    + apply NoDup_cons_iff. split; [|now apply IH].
      intros Hin. apply dict_set_keys in Hin. destruct Hin as [->|Hin].
      * rewrite String.eqb_refl in E. discriminate.
      * contradiction.
Qed.

(** X20: the record of a successful analysis answers every key as the event
    does, except [pump_prob], [rug_prob] and [timestamp], which carry the
    two scores and the time of the analysis even when the event had fields
    of those names; it is never empty, and its keys are distinct when the
    event's are. *)
Theorem analysis_record_fields
        Features extract scores data now features pump rug s :
  extract data = Some features ->
  scores pump_detect features = Some pump ->
  scores rug_detect features = Some rug ->
  exists analysis,
    _analyze_data Features extract scores data now s
    = (Ok analysis, emit_output (Analyzed data) s)
    /\ (forall k,
          dict_get k analysis
          = if String.eqb k "timestamp" then Some (PTime now)
            else if String.eqb k "rug_prob" then Some (PFloat rug)
            else if String.eqb k "pump_prob" then Some (PFloat pump)
            else dict_get k data)
    /\ truthy (PDict analysis) = true
    /\ (NoDup (map fst data) -> NoDup (map fst analysis)).
Proof.
  intros Hf Hp Hr. eexists.
  split; [exact (analyze_data_ok _ _ _ _ _ _ _ _ _ Hf Hp Hr)|].
  split; [|split].
  - intros k.
    destruct (String.eqb k "timestamp") eqn:E1.
    { apply String.eqb_eq in E1. subst k. apply dict_get_set_same. }
    apply String.eqb_neq in E1.
    rewrite dict_get_set_other by congruence.
    destruct (String.eqb k "rug_prob") eqn:E2.
    { apply String.eqb_eq in E2. subst k. apply dict_get_set_same. }
    apply String.eqb_neq in E2.
    rewrite dict_get_set_other by congruence.
    destruct (String.eqb k "pump_prob") eqn:E3.
    { apply String.eqb_eq in E3. subst k. apply dict_get_set_same. }
    apply String.eqb_neq in E3.
    now rewrite dict_get_set_other by congruence.
  - apply dict_set_truthy.
  - intros Hnd. now repeat apply dict_set_keys_unique.
Qed.

(** * The analyzer as it runs *)

(** ** What the session and the columns add *)

Lemma record_not_serializable k t d :
  json_serializable (PDict (dict_set k (PTime t) d)) = false.
Proof.
  cbn [json_serializable].
  induction d as [|[k' v'] rest IH]; cbn [dict_set]; [reflexivity|].
  destruct (String.eqb k' k); cbn [forallb snd json_serializable];
    [reflexivity|].
  rewrite IH. apply andb_false_r.
Qed.

(** Every record [_analyze_data] returns holds the datetime of the
    analysis, which the column cannot encode. *)
Lemma analysis_not_serializable Features extract scores data now s analysis s' :
  _analyze_data Features extract scores data now s = (Ok analysis, s') ->
  json_serializable (PDict analysis) = false.
Proof.
  unfold _analyze_data, bind, emit, external. intros H.
  destruct (extract data) as [f|]; [|discriminate].
  unfold ret at 1 in H.
  destruct (scores pump_detect f) as [p|]; [|discriminate].
  unfold ret at 1 in H.
  destruct (scores rug_detect f) as [r|]; [|discriminate].
  inversion H; subst. apply record_not_serializable.
Qed.

(** With an identifier that fits, a limit an [Integer] holds and a window
    that ends within the range of [datetime], the limiter on a session is
    the round trip of the store. *)
Lemma analyzer_check_is_round_trip identifier limit window now a :
  DexAnalyzer.fits 255 identifier = true ->
  limit <= DexAnalyzer.integer_max ->
  DexAnalyzer.expiry_ok now window = true ->
  DexAnalyzer.check_rate_limit identifier limit window now a
  = DexAnalyzer.round_trip
      (check_rate_limit identifier limit window now false) a.
Proof.
  intros Hfit Hlimit Hexp.
  destruct a as [s [|]]; [reflexivity|].
  unfold DexAnalyzer.check_rate_limit, DexAnalyzer.bind,
    DexAnalyzer.round_trip, DexAnalyzer.rate_query, DexAnalyzer.python,
    DexAnalyzer.expiry, DexAnalyzer.rate_insert, DexAnalyzer.rate_update,
    DexAnalyzer.ret, check_rate_limit, commit, rate_decide, bind, rate_add,
    rate_store_count, ret, raise.
  cbn [DexAnalyzer.aborted DexAnalyzer.db].
  destruct (rate_first identifier (rate_limits s)) as [e|];
    [destruct (rl_expires e <? now);
     [|destruct (rl_count e >=? limit) eqn:Hc; [reflexivity|]]|].
  - rewrite Hexp. cbn [DexAnalyzer.aborted DexAnalyzer.db rl_identifier].
    rewrite Hfit.
    now destruct (existsb (is_identifier identifier) (rate_limits s)).
  - assert (Hfit1 : (rl_count e + 1 <=? DexAnalyzer.integer_max) = true).
    { apply Z.leb_le. rewrite Z.geb_leb in Hc. apply Z.leb_gt in Hc. lia. }
    now rewrite Hfit1.
  - rewrite Hexp. cbn [DexAnalyzer.aborted DexAnalyzer.db rl_identifier].
    rewrite Hfit.
    now destruct (existsb (is_identifier identifier) (rate_limits s)).
Qed.

(** The limiter touches the windows only, whatever becomes of it. *)
Lemma analyzer_check_tables identifier limit window now a :
  let a' := snd (DexAnalyzer.check_rate_limit identifier limit window now a) in
  cache_store (DexAnalyzer.db a') = cache_store (DexAnalyzer.db a)
  /\ trading_signals (DexAnalyzer.db a') = trading_signals (DexAnalyzer.db a)
  /\ signal_seq (DexAnalyzer.db a') = signal_seq (DexAnalyzer.db a)
  /\ journal (DexAnalyzer.db a') = journal (DexAnalyzer.db a).
Proof.
  destruct a as [s [|]]; [cbn; tauto|].
  unfold DexAnalyzer.check_rate_limit, DexAnalyzer.bind,
    DexAnalyzer.round_trip, DexAnalyzer.rate_query, DexAnalyzer.python,
    DexAnalyzer.expiry, DexAnalyzer.rate_insert, DexAnalyzer.rate_update,
    DexAnalyzer.ret, rate_add, rate_store_count, raise.
  cbn [DexAnalyzer.aborted DexAnalyzer.db].
  assert (Hfresh :
    forall a',
      a' = snd (if DexAnalyzer.expiry_ok now window
                then
                  if DexAnalyzer.fits 255 identifier
                  then
                    if existsb (is_identifier identifier) (rate_limits s)
                    then (@Raise bool IntegrityError,
                          DexAnalyzer.mkAnalyzer s true)
                    else
                      (Ok true,
                       DexAnalyzer.mkAnalyzer
                         (set_rate_limits
                            (rate_limits s
                               ++ [mkRateLimit identifier 1
                                     (now + timedelta window)]) s) false)
                  else (Raise DataError, DexAnalyzer.mkAnalyzer s true)
                else (Raise OverflowError, DexAnalyzer.mkAnalyzer s false)) ->
      cache_store (DexAnalyzer.db a') = cache_store s
      /\ trading_signals (DexAnalyzer.db a') = trading_signals s
      /\ signal_seq (DexAnalyzer.db a') = signal_seq s
      /\ journal (DexAnalyzer.db a') = journal s).
  { intros a' ->.
    destruct (DexAnalyzer.expiry_ok now window); [|cbn; tauto].
    destruct (DexAnalyzer.fits 255 identifier); [|cbn; tauto].
    destruct (existsb (is_identifier identifier) (rate_limits s)); cbn;
      tauto. }
  destruct (rate_first identifier (rate_limits s)) as [e|];
    [destruct (rl_expires e <? now);
     [|destruct (rl_count e >=? limit); [cbn; tauto|]]|].
  - cbv zeta. apply Hfresh.
    destruct (DexAnalyzer.expiry_ok now window); [|reflexivity].
    cbn [DexAnalyzer.aborted DexAnalyzer.db rl_identifier].
    destruct (DexAnalyzer.fits 255 identifier); [|reflexivity].
    now destruct (existsb (is_identifier identifier) (rate_limits s)).
  - cbv zeta.
    destruct (rl_count e + 1 <=? DexAnalyzer.integer_max); cbn; tauto.
  - cbv zeta. apply Hfresh.
    destruct (DexAnalyzer.expiry_ok now window); [|reflexivity].
    cbn [DexAnalyzer.aborted DexAnalyzer.db rl_identifier].
    destruct (DexAnalyzer.fits 255 identifier); [|reflexivity].
    now destruct (existsb (is_identifier identifier) (rate_limits s)).
Qed.

(** On a record of the analysis [cache_set] raises and writes nothing. *)
Lemma analyzer_cache_set_raises key value ttl now a :
  json_serializable value = false ->
  DexAnalyzer.expiry_ok now ttl = true ->
  DexAnalyzer.cache_set key value ttl now a
  = (Raise (if DexAnalyzer.aborted a then TransactionAborted
            else StatementError),
     DexAnalyzer.mkAnalyzer (DexAnalyzer.db a) true).
Proof.
  intros H Hexp.
  unfold DexAnalyzer.cache_set, DexAnalyzer.bind, DexAnalyzer.python,
    DexAnalyzer.expiry, DexAnalyzer.round_trip.
  rewrite H, Hexp. destruct a as [s [|]]; reflexivity.
Qed.

(** Whatever the expiry, it writes nothing on such a value. *)
Lemma analyzer_cache_set_fails key value ttl now a :
  json_serializable value = false ->
  exists e b,
    DexAnalyzer.cache_set key value ttl now a
    = (Raise e, DexAnalyzer.mkAnalyzer (DexAnalyzer.db a) b).
Proof.
  intros H.
  unfold DexAnalyzer.cache_set, DexAnalyzer.bind, DexAnalyzer.python,
    DexAnalyzer.expiry, DexAnalyzer.round_trip.
  rewrite H.
  destruct a as [s [|]]; destruct (DexAnalyzer.expiry_ok now ttl);
    cbn; eauto.
Qed.

Section Program.

Variable py_str : pyval -> string.
Variable notify_parses : string -> bool.
Variable Features : Type.
Variable _extract_features : dict -> option Features.
Variable score_samples : Detector -> Features -> option Z.

Local Abbreviation run :=
  (DexAnalyzer.process_pair py_str notify_parses Features _extract_features
                            score_samples).
Local Abbreviation analyze :=
  (_analyze_data Features _extract_features score_samples).

(** On a session that has failed the run ends at the limiter's query. *)
Lemma analyzer_run_aborted data clk s :
  run data clk (DexAnalyzer.mkAnalyzer s true)
  = (Ok PNone,
     DexAnalyzer.mkAnalyzer (emit_output (Printed TransactionAborted) s) true).
Proof. reflexivity. Qed.

(** The run of an event that is admitted, finds nothing in the cache and is
    analysed: it ends at [cache_set]. *)
Lemma analyzer_run_analysed data clk a address features pump rug :
  DexAnalyzer.aborted a = false ->
  DexAnalyzer.in_range clk = true ->
  rate_admits "api_requests" 10 (at_rate clk)
              (rate_limits (DexAnalyzer.db a)) = true ->
  dict_get "address" data = Some address ->
  cache_live (pair_key py_str address) (at_lookup clk)
             (cache_store (DexAnalyzer.db a)) = None ->
  _extract_features data = Some features ->
  score_samples pump_detect features = Some pump ->
  score_samples rug_detect features = Some rug ->
  run data clk a
  = (Ok PNone,
     DexAnalyzer.mkAnalyzer
       (emit_output (Printed StatementError)
          (emit_output (Analyzed data)
             (snd (check_rate_limit "api_requests" 10 1 (at_rate clk) false
                                    (DexAnalyzer.db a)))))
       true).
Proof.
  intros Hab Hclk Hrate Haddr Hmiss Hf Hp Hr.
  apply andb_prop in Hclk. destruct Hclk as [Hwindow Httl].
  destruct (rate_admits_check _ _ 1 _ _ Hrate)
    as [s1 [Hcheck [Hc1 _]]].
  rewrite Hcheck. cbn [snd].
  unfold DexAnalyzer.process_pair, DexAnalyzer.try_except,
    DexAnalyzer.process_pair_body.
  unfold DexAnalyzer.bind at 1.
  rewrite analyzer_check_is_round_trip
    by (try reflexivity; try exact Hwindow; unfold DexAnalyzer.integer_max;
        lia).
  unfold DexAnalyzer.round_trip at 1.
  rewrite Hab, Hcheck. cbn [negb].
  unfold DexAnalyzer.bind at 1, DexAnalyzer.python at 1, getitem at 1.
  cbn [DexAnalyzer.db DexAnalyzer.aborted]. rewrite Haddr. unfold ret at 1.
  unfold DexAnalyzer.bind at 1, DexAnalyzer.cache_get,
    DexAnalyzer.round_trip at 1, cache_get.
  cbn [DexAnalyzer.db DexAnalyzer.aborted].
  rewrite <- Hc1 in Hmiss. rewrite Hmiss. cbn [truthy].
  unfold DexAnalyzer.bind at 1, DexAnalyzer.python at 1.
  cbn [DexAnalyzer.db DexAnalyzer.aborted].
  rewrite (analyze_data_ok Features _extract_features score_samples
             _ _ _ _ _ _ Hf Hp Hr).
  unfold DexAnalyzer.bind at 1.
  rewrite analyzer_cache_set_raises
    by (try apply record_not_serializable; exact Httl).
  reflexivity.
Qed.

(** No run writes to the cache or to the queue, whatever the collaborators
    do: a run that gets as far as [cache_set] fails there, and the publish
    comes after it.  What a run returns is [None], or the value of a row
    that was in the cache before it. *)
Lemma analyzer_run_tables data clk a r a' :
  run data clk a = (r, a') ->
  cache_store (DexAnalyzer.db a') = cache_store (DexAnalyzer.db a)
  /\ trading_signals (DexAnalyzer.db a') = trading_signals (DexAnalyzer.db a)
  /\ signal_seq (DexAnalyzer.db a') = signal_seq (DexAnalyzer.db a)
  /\ (r = Ok PNone
      \/ exists row, In row (cache_store (DexAnalyzer.db a))
                     /\ r = Ok (cs_value row)).
Proof.
  intros Hrun.
  unfold DexAnalyzer.process_pair, DexAnalyzer.try_except,
    DexAnalyzer.process_pair_body in Hrun.
  unfold DexAnalyzer.bind at 1 in Hrun.
  pose proof (analyzer_check_tables "api_requests" 10 1 (at_rate clk) a)
    as [Hc1 [Ht1 [Hq1 _]]].
  destruct (DexAnalyzer.check_rate_limit "api_requests" 10 1 (at_rate clk) a)
    as [[allowed|e] a1]; cbn [snd] in Hc1, Ht1, Hq1;
    [|cbn in Hrun; inversion Hrun; subst; cbn; repeat split;
      try congruence; now left].
  destruct allowed; cbn [negb] in Hrun;
    [|cbn in Hrun; inversion Hrun; subst; repeat split;
      try congruence; now left].
  unfold DexAnalyzer.bind at 1, DexAnalyzer.python at 1, getitem at 1
    in Hrun.
  destruct (dict_get "address" data) as [address|];
    [|cbn in Hrun; inversion Hrun; subst; cbn; repeat split;
      try congruence; now left].
  unfold ret at 1 in Hrun. cbn iota in Hrun.
  unfold DexAnalyzer.bind at 1, DexAnalyzer.cache_get,
    DexAnalyzer.round_trip at 1, cache_get in Hrun.
  cbn [DexAnalyzer.db DexAnalyzer.aborted] in Hrun.
  destruct (DexAnalyzer.aborted a1);
    [cbn in Hrun; inversion Hrun; subst; cbn; repeat split;
     try congruence; now left|].
  assert (Hmiss :
    forall a2,
      DexAnalyzer.db a2 = DexAnalyzer.db a1 ->
      (let (r0, a0) :=
         DexAnalyzer.bind
           (DexAnalyzer.python (analyze data (at_analysis clk)))
           (fun analysis =>
              DexAnalyzer.bind
                (DexAnalyzer.cache_set (pair_key py_str address)
                   (PDict analysis) default_ttl (at_store clk))
                (fun _ =>
                   DexAnalyzer.bind
                     (DexAnalyzer.python (getitem analysis "signal"))
                     (fun signal =>
                        if truthy signal
                        then DexAnalyzer.bind
                               (DexAnalyzer.publish_signal py_str
                                  notify_parses "trading" (PDict analysis)
                                  (at_publish clk))
                               (fun _ => DexAnalyzer.ret PNone)
                        else DexAnalyzer.ret PNone))) a2 in
       match r0 with
       | Ok t => (Ok t, a0)
       | Raise e =>
           DexAnalyzer.bind (DexAnalyzer.python (emit (Printed e)))
                            (fun _ => DexAnalyzer.ret PNone) a0
       end) = (r, a') ->
      cache_store (DexAnalyzer.db a') = cache_store (DexAnalyzer.db a)
      /\ trading_signals (DexAnalyzer.db a')
         = trading_signals (DexAnalyzer.db a)
      /\ signal_seq (DexAnalyzer.db a') = signal_seq (DexAnalyzer.db a)
      /\ (r = Ok PNone
          \/ exists row, In row (cache_store (DexAnalyzer.db a))
                         /\ r = Ok (cs_value row))).
  { clear Hrun. intros a2 Hdb Hrun.
    unfold DexAnalyzer.bind at 1, DexAnalyzer.python at 1 in Hrun.
    pose proof (analyze_data_tables Features _extract_features score_samples
                  data (at_analysis clk) (DexAnalyzer.db a2))
      as [Ha [_ [Hat [Haq _]]]].
    destruct (analyze data (at_analysis clk) (DexAnalyzer.db a2))
      as [[analysis|e] s2] eqn:Han; cbn [snd] in Ha, Hat, Haq;
      [|cbn in Hrun; inversion Hrun; subst; cbn; repeat split;
        try congruence; now left].
    apply analysis_not_serializable in Han.
    unfold DexAnalyzer.bind at 1 in Hrun.
    destruct (analyzer_cache_set_fails (pair_key py_str address)
                (PDict analysis) default_ttl (at_store clk)
                (DexAnalyzer.mkAnalyzer s2 (DexAnalyzer.aborted a2)) Han)
      as [e [b Hset]].
    rewrite Hset in Hrun.
    cbn in Hrun. inversion Hrun; subst. cbn.
    repeat split; try congruence; now left. }
  destruct (cache_live (pair_key py_str address) (at_lookup clk)
              (cache_store (DexAnalyzer.db a1))) as [row|] eqn:Hlive.
  - destruct (truthy (cs_value row)) eqn:Ht.
    + cbn in Hrun. inversion Hrun; subst. cbn.
      repeat split; try congruence.
      right. exists row. split; [|reflexivity].
      unfold cache_live in Hlive. apply find_some in Hlive.
      rewrite <- Hc1. tauto.
    + exact (Hmiss (DexAnalyzer.mkAnalyzer (DexAnalyzer.db a1) false)
                   eq_refl Hrun).
  - cbn [truthy] in Hrun.
    exact (Hmiss (DexAnalyzer.mkAnalyzer (DexAnalyzer.db a1) false)
                 eq_refl Hrun).
Qed.

(** An analyzer that starts on an empty cache answers no event from it:
    every run returns [None] and the cache stays empty. *)
Lemma analyzer_runs_on_empty_cache events :
  forall a,
    cache_store (DexAnalyzer.db a) = [] ->
    let outcome :=
      DexAnalyzer.process_pairs py_str notify_parses Features
        _extract_features score_samples events a in
    fst outcome = repeat (Ok PNone) (List.length events)
    /\ cache_store (DexAnalyzer.db (snd outcome)) = [].
Proof.
  induction events as [|[data clk] rest IH]; intros a Hempty;
    [cbn; tauto|].
  cbn [DexAnalyzer.process_pairs].
  destruct (run data clk a) as [r a1] eqn:Hrun.
  destruct (analyzer_run_tables _ _ _ _ _ Hrun) as [Hc [_ [_ Hr]]].
  rewrite Hempty in Hc. specialize (IH a1 Hc).
  destruct (DexAnalyzer.process_pairs py_str notify_parses Features
              _extract_features score_samples rest a1) as [rs af].
  cbn [fst snd List.length repeat] in *.
  destruct IH as [H1 H2]. split; [|exact H2].
  destruct Hr as [-> | [row [Hin _]]]; [now rewrite H1|].
  rewrite Hempty in Hin. destruct Hin.
Qed.

Lemma analyzer_runs_aborted events :
  forall s,
    let outcome :=
      DexAnalyzer.process_pairs py_str notify_parses Features
        _extract_features score_samples events
        (DexAnalyzer.mkAnalyzer s true) in
    fst outcome = repeat (Ok PNone) (List.length events)
    /\ DexAnalyzer.aborted (snd outcome) = true
    /\ cache_store (DexAnalyzer.db (snd outcome)) = cache_store s
    /\ rate_limits (DexAnalyzer.db (snd outcome)) = rate_limits s
    /\ trading_signals (DexAnalyzer.db (snd outcome)) = trading_signals s
    /\ analyses (journal (DexAnalyzer.db (snd outcome)))
       = analyses (journal s).
Proof.
  induction events as [|[data clk] rest IH]; intros s; [cbn; tauto|].
  cbn [DexAnalyzer.process_pairs]. rewrite analyzer_run_aborted.
  specialize (IH (emit_output (Printed TransactionAborted) s)).
  destruct (DexAnalyzer.process_pairs py_str notify_parses Features
              _extract_features score_samples rest
              (DexAnalyzer.mkAnalyzer
                 (emit_output (Printed TransactionAborted) s) true))
    as [rs af].
  cbn [fst snd List.length repeat] in *.
  destruct IH as [H1 [H2 [H3 [H4 [H5 H6]]]]].
  rewrite H1. repeat split; assumption.
Qed.

(** C5: two events with the same address, the first admitted, not cached
    and analysed.  [cache_set] raises on its record, which holds the
    datetime of the analysis, so nothing is cached; the session is left
    failed and the second run ends at the limiter: it returns [None], not
    the record, and the cache is as it was before the two events.  Whatever
    the collaborators do, an analyzer that starts on an empty cache answers
    no event from it. *)
Theorem identical_events_miss_the_cache
        data clk a address features pump rug data2 clk2 :
  DexAnalyzer.aborted a = false ->
  DexAnalyzer.in_range clk = true ->
  rate_admits "api_requests" 10 (at_rate clk)
              (rate_limits (DexAnalyzer.db a)) = true ->
  dict_get "address" data = Some address ->
  cache_live (pair_key py_str address) (at_lookup clk)
             (cache_store (DexAnalyzer.db a)) = None ->
  _extract_features data = Some features ->
  score_samples pump_detect features = Some pump ->
  score_samples rug_detect features = Some rug ->
  dict_get "address" data2 = Some address ->
  let analysis :=
    dict_set "timestamp" (PTime (at_analysis clk))
      (dict_set "rug_prob" (PFloat rug)
         (dict_set "pump_prob" (PFloat pump) data)) in
  let a1 := snd (run data clk a) in
  let a2 := snd (run data2 clk2 a1) in
  fst (run data clk a) = Ok PNone
  /\ cache_store (DexAnalyzer.db a1) = cache_store (DexAnalyzer.db a)
  /\ fst (run data2 clk2 a1) = Ok PNone
  /\ fst (run data2 clk2 a1) <> Ok (PDict analysis)
  /\ cache_store (DexAnalyzer.db a2) = cache_store (DexAnalyzer.db a)
  /\ journal (DexAnalyzer.db a2)
     = Printed TransactionAborted :: Printed StatementError
         :: Analyzed data :: journal (DexAnalyzer.db a)
  /\ forall events a0,
       cache_store (DexAnalyzer.db a0) = [] ->
       let outcome :=
         DexAnalyzer.process_pairs py_str notify_parses Features
           _extract_features score_samples events a0 in
       fst outcome = repeat (Ok PNone) (List.length events)
       /\ cache_store (DexAnalyzer.db (snd outcome)) = [].
Proof.
  intros Hab Hclk Hrate Haddr Hmiss Hf Hp Hr Haddr2 analysis a1 a2.
  pose proof (analyzer_run_analysed data clk a address features pump rug
                Hab Hclk Hrate Haddr Hmiss Hf Hp Hr) as Hrun.
  destruct (check_rate_limit_tables "api_requests" 10 1 (at_rate clk) false
              (DexAnalyzer.db a)) as [Hc [_ [_ Hj]]].
  set (s1 := snd (check_rate_limit "api_requests" 10 1 (at_rate clk) false
                                  (DexAnalyzer.db a))) in *.
  subst a2 a1. rewrite Hrun. cbn [fst snd].
  rewrite analyzer_run_aborted. cbn [fst snd DexAnalyzer.db].
  split; [reflexivity|]. split; [cbn; congruence|].
  split; [reflexivity|]. split; [discriminate|].
  split; [cbn; congruence|]. split; [cbn; congruence|].
  intros events a0 Hempty. now apply analyzer_runs_on_empty_cache.
Qed.

(** C6: a run of [process_pair] never raises, and whatever the
    collaborators do none stores a record or appends a signal.  Once an
    event has been admitted and analysed, its [cache_set] has failed and the
    session is never rolled back: every later event, whatever it is, ends
    at the limiter with [None]; none is analysed, cached or published, and
    the windows are not even counted. *)
Theorem later_events_are_lost data clk a address features pump rug :
  (forall data0 clk0 a0, exists v, fst (run data0 clk0 a0) = Ok v)
  /\ (forall data0 clk0 a0,
        let a0' := snd (run data0 clk0 a0) in
        cache_store (DexAnalyzer.db a0') = cache_store (DexAnalyzer.db a0)
        /\ trading_signals (DexAnalyzer.db a0')
           = trading_signals (DexAnalyzer.db a0))
  /\ (DexAnalyzer.aborted a = false ->
      DexAnalyzer.in_range clk = true ->
      rate_admits "api_requests" 10 (at_rate clk)
                  (rate_limits (DexAnalyzer.db a)) = true ->
      dict_get "address" data = Some address ->
      cache_live (pair_key py_str address) (at_lookup clk)
                 (cache_store (DexAnalyzer.db a)) = None ->
      _extract_features data = Some features ->
      score_samples pump_detect features = Some pump ->
      score_samples rug_detect features = Some rug ->
      forall events,
        let a1 := snd (run data clk a) in
        let outcome :=
          DexAnalyzer.process_pairs py_str notify_parses Features
            _extract_features score_samples events a1 in
        fst outcome = repeat (Ok PNone) (List.length events)
        /\ cache_store (DexAnalyzer.db (snd outcome))
           = cache_store (DexAnalyzer.db a)
        /\ trading_signals (DexAnalyzer.db (snd outcome))
           = trading_signals (DexAnalyzer.db a)
        /\ rate_limits (DexAnalyzer.db (snd outcome))
           = rate_limits (DexAnalyzer.db a1)
        /\ analyses (journal (DexAnalyzer.db (snd outcome)))
           = analyses (journal (DexAnalyzer.db a1))).
Proof.
  split; [|split].
  - intros data0 clk0 a0.
    unfold DexAnalyzer.process_pair, DexAnalyzer.try_except.
    destruct (DexAnalyzer.process_pair_body py_str notify_parses Features
                _extract_features score_samples data0 clk0 a0)
      as [[v|e] a'].
    + now exists v.
    + exists PNone. unfold DexAnalyzer.bind, DexAnalyzer.python, emit.
      reflexivity.
  - intros data0 clk0 a0 a0'. subst a0'.
    destruct (run data0 clk0 a0) as [r0 af] eqn:H0. cbn [snd].
    destruct (analyzer_run_tables data0 clk0 a0 r0 af H0) as [H1 [H2 _]].
    now split.
  - intros Hab Hclk Hrate Haddr Hmiss Hf Hp Hr events a1 outcome.
    pose proof (analyzer_run_analysed data clk a address features pump rug
                  Hab Hclk Hrate Haddr Hmiss Hf Hp Hr) as Hrun.
    destruct (check_rate_limit_tables "api_requests" 10 1 (at_rate clk) false
                (DexAnalyzer.db a)) as [Hc [Ht _]].
    set (s1 := snd (check_rate_limit "api_requests" 10 1 (at_rate clk) false
                                    (DexAnalyzer.db a))) in *.
    subst outcome a1. rewrite Hrun. cbn [snd].
    destruct (analyzer_runs_aborted events
                (emit_output (Printed StatementError)
                   (emit_output (Analyzed data) s1)))
      as [H1 [_ [H3 [H4 [H5 H6]]]]].
    repeat split; try assumption.
    + rewrite H3. exact Hc.
    + rewrite H5. exact Ht.
Qed.


(** C10: the record of the analysis is the event with the two scores and
    the time set on it, so its [signal] is the event's; but the time is a
    datetime, and the run of an admitted, uncached, analysed event ends at
    [cache_set] whatever its [signal] field: what is printed is the failure
    of the write, not a [KeyError], the record is not in the cache, and no
    run at all, of any event, appends a signal. *)
Theorem publish_gate_is_never_reached data clk a address features pump rug :
  DexAnalyzer.aborted a = false ->
  DexAnalyzer.in_range clk = true ->
  rate_admits "api_requests" 10 (at_rate clk)
              (rate_limits (DexAnalyzer.db a)) = true ->
  dict_get "address" data = Some address ->
  cache_live (pair_key py_str address) (at_lookup clk)
             (cache_store (DexAnalyzer.db a)) = None ->
  _extract_features data = Some features ->
  score_samples pump_detect features = Some pump ->
  score_samples rug_detect features = Some rug ->
  let analysis :=
    dict_set "timestamp" (PTime (at_analysis clk))
      (dict_set "rug_prob" (PFloat rug)
         (dict_set "pump_prob" (PFloat pump) data)) in
  let a' := snd (run data clk a) in
  dict_get "signal" analysis = dict_get "signal" data
  /\ json_serializable (PDict analysis) = false
  /\ fst (run data clk a) = Ok PNone
  /\ journal (DexAnalyzer.db a')
     = Printed StatementError :: Analyzed data :: journal (DexAnalyzer.db a)
  /\ cache_store (DexAnalyzer.db a') = cache_store (DexAnalyzer.db a)
  /\ forall data0 clk0 a0,
       trading_signals (DexAnalyzer.db (snd (run data0 clk0 a0)))
       = trading_signals (DexAnalyzer.db a0).
Proof.
  intros Hab Hclk Hrate Haddr Hmiss Hf Hp Hr analysis a'.
  pose proof (analyzer_run_analysed data clk a address features pump rug
                Hab Hclk Hrate Haddr Hmiss Hf Hp Hr) as Hrun.
  destruct (check_rate_limit_tables "api_requests" 10 1 (at_rate clk) false
              (DexAnalyzer.db a)) as [Hc [_ [_ Hj]]].
  set (s1 := snd (check_rate_limit "api_requests" 10 1 (at_rate clk) false
                                  (DexAnalyzer.db a))) in *.
  split.
  { unfold analysis. rewrite !dict_get_set_other; [reflexivity | | |];
      discriminate. }
  split; [apply record_not_serializable|].
  subst a'. rewrite Hrun. cbn [fst snd DexAnalyzer.db].
  split; [reflexivity|]. split; [cbn; congruence|].
  split; [cbn; congruence|].
  intros data0 clk0 a0.
  destruct (run data0 clk0 a0) as [r0 af] eqn:H0. cbn [snd].
  now apply (analyzer_run_tables data0 clk0 a0 r0 af H0).
Qed.

End Program.

(** ** The primitives on the session *)

Lemma analyzer_check_aborted identifier limit window now s :
  DexAnalyzer.check_rate_limit identifier limit window now
                               (DexAnalyzer.mkAnalyzer s true)
  = (Raise TransactionAborted, DexAnalyzer.mkAnalyzer s true).
Proof. reflexivity. Qed.

(** On a session that works, with an expiry in range, a value the column
    takes and a key that fits, [cache_set] is the write to the table. *)
Lemma analyzer_cache_set_ok key value ttl now s :
  DexAnalyzer.expiry_ok now ttl = true ->
  json_serializable value = true -> DexAnalyzer.fits 255 key = true ->
  DexAnalyzer.cache_set key value ttl now (DexAnalyzer.connect s)
  = (Ok tt, DexAnalyzer.connect (snd (cache_set key value ttl now false s))).
Proof.
  intros He Hj Hk.
  unfold DexAnalyzer.cache_set, DexAnalyzer.bind, DexAnalyzer.python,
    DexAnalyzer.expiry, DexAnalyzer.round_trip.
  cbn [DexAnalyzer.connect DexAnalyzer.aborted DexAnalyzer.db].
  now rewrite He, Hj, Hk.
Qed.

(** An expiry out of range is raised before the session is touched. *)
Lemma analyzer_cache_set_overflow key value ttl now a :
  DexAnalyzer.expiry_ok now ttl = false ->
  DexAnalyzer.cache_set key value ttl now a = (Raise OverflowError, a).
Proof.
  intros He.
  unfold DexAnalyzer.cache_set, DexAnalyzer.bind, DexAnalyzer.python,
    DexAnalyzer.expiry.
  rewrite He. now destruct a.
Qed.

Lemma analyzer_cache_get_ok key now s :
  DexAnalyzer.cache_get key now (DexAnalyzer.connect s)
  = (fst (cache_get key now false s), DexAnalyzer.connect s).
Proof.
  unfold DexAnalyzer.cache_get, DexAnalyzer.round_trip, cache_get.
  cbn [DexAnalyzer.connect DexAnalyzer.aborted DexAnalyzer.db].
  now destruct (cache_live key now (cache_store s)).
Qed.

(** X1: once the window of an identifier lies in the past, the call that
    meets it raises [IntegrityError] (the new window being one [datetime]
    holds) and every later call on that analyzer, at any time, raises at its
    query; the tables stay as they were, so the window is never reopened. *)
Theorem expired_window_ends_the_session identifier limit window t0 rest s e :
  rate_first identifier (rate_limits s) = Some e ->
  rl_expires e < t0 ->
  DexAnalyzer.fits 255 identifier = true ->
  DexAnalyzer.expiry_ok t0 window = true ->
  DexAnalyzer.check_rate_limit_each identifier limit window (t0 :: rest)
                                    (DexAnalyzer.connect s)
  = (Raise IntegrityError
       :: repeat (Raise TransactionAborted) (List.length rest),
     DexAnalyzer.mkAnalyzer s true).
Proof.
  intros He Hx Hfit Hexp. cbn [DexAnalyzer.check_rate_limit_each].
  assert (H0 : DexAnalyzer.check_rate_limit identifier limit window t0
                 (DexAnalyzer.connect s)
               = (Raise IntegrityError, DexAnalyzer.mkAnalyzer s true)).
  { unfold DexAnalyzer.check_rate_limit, DexAnalyzer.bind,
      DexAnalyzer.round_trip, DexAnalyzer.rate_query, DexAnalyzer.python,
      DexAnalyzer.expiry, DexAnalyzer.rate_insert, rate_add.
    cbn [DexAnalyzer.connect DexAnalyzer.aborted DexAnalyzer.db].
    rewrite He. apply Z.ltb_lt in Hx. rewrite Hx, Hexp.
    cbn [DexAnalyzer.aborted DexAnalyzer.db rl_identifier]. rewrite Hfit.
    unfold rate_first in He. apply find_some in He.
    assert (Hex : existsb (is_identifier identifier) (rate_limits s) = true)
      by (apply existsb_exists; now exists e).
    now rewrite Hex. }
  rewrite H0.
  assert (Hrest : forall times,
             DexAnalyzer.check_rate_limit_each identifier limit window times
               (DexAnalyzer.mkAnalyzer s true)
             = (repeat (Raise TransactionAborted) (List.length times),
                DexAnalyzer.mkAnalyzer s true)).
  { induction times as [|t times IH]; [reflexivity|].
    cbn [DexAnalyzer.check_rate_limit_each List.length repeat].
    now rewrite analyzer_check_aborted, IH. }
  now rewrite Hrest.
Qed.

(** X10: a publish whose NOTIFY the store cannot parse raises after its row
    was committed.  The publisher's own session has failed with it, so its
    consume raises and yields nothing; a consumer on a session of its own
    finds the message in the queue. *)
Theorem notify_failure_leaves_message_queued
        py_str notify_parses order_by channel message now s :
  orders_by_created_at order_by ->
  filter (on_channel channel) (trading_signals s) = [] ->
  json_serializable message = true ->
  DexAnalyzer.fits 50 channel = true ->
  signal_seq s <= DexAnalyzer.integer_max ->
  notify_parses (py_str message) = false ->
  let attempt :=
    DexAnalyzer.publish_signal py_str notify_parses channel message now
                               (DexAnalyzer.connect s) in
  fst attempt = Raise ProgrammingError
  /\ trading_signals (DexAnalyzer.db (snd attempt))
     = trading_signals s
         ++ [mkTradingSignal (signal_seq s) channel message now]
  /\ fst (DexAnalyzer.consume_signals order_by channel (snd attempt))
     = Raise TransactionAborted
  /\ fst (DexAnalyzer.consume_signals order_by channel
           (DexAnalyzer.connect (DexAnalyzer.db (snd attempt))))
     = Ok [message].
Proof.
  intros Hord Hempty Hj Hc Hid Hn attempt.
  apply Z.leb_le in Hid.
  assert (Hrun : attempt
                 = (Raise ProgrammingError,
                    DexAnalyzer.mkAnalyzer
                      (mkState (cache_store s) (rate_limits s)
                         (trading_signals s
                            ++ [mkTradingSignal (signal_seq s) channel
                                                message now])
                         (signal_seq s + 1) (journal s)) true)).
  { subst attempt.
    unfold DexAnalyzer.publish_signal, DexAnalyzer.bind,
      DexAnalyzer.round_trip, DexAnalyzer.signal_add,
      DexAnalyzer.signal_notify.
    cbn [DexAnalyzer.connect DexAnalyzer.aborted DexAnalyzer.db].
    rewrite Hj, Hc. cbn [negb]. rewrite Hid.
    cbn [DexAnalyzer.aborted DexAnalyzer.db].
    now rewrite Hn. }
  rewrite Hrun. cbn [fst snd DexAnalyzer.db].
  split; [reflexivity|]. split; [reflexivity|]. split; [reflexivity|].
  unfold DexAnalyzer.consume_signals, DexAnalyzer.round_trip,
    consume_signals, fetch_signals.
  cbn [DexAnalyzer.connect DexAnalyzer.aborted DexAnalyzer.db fst
       trading_signals].
  rewrite filter_app, Hempty. cbn [filter app]. unfold on_channel at 1.
  cbn [ts_channel]. rewrite String.eqb_refl.
  now rewrite (order_by_one _ _ Hord).
Qed.

(** X21: a write to one cache key that goes through changes nothing for a
    reader of another key.  A write the column refuses leaves the table as
    it was, but fails the writer's session: its own next read raises, while
    a reader on another session sees what was there before.  A write whose
    expiry no [datetime] holds raises before the session is used. *)
Theorem cache_write_and_other_keys key other value ttl t now s :
  other <> key ->
  let a' := snd (DexAnalyzer.cache_set key value ttl t
                   (DexAnalyzer.connect s)) in
  (DexAnalyzer.expiry_ok t ttl = true ->
   json_serializable value = true -> DexAnalyzer.fits 255 key = true ->
   fst (DexAnalyzer.cache_get other now a')
   = fst (DexAnalyzer.cache_get other now (DexAnalyzer.connect s)))
  /\ (DexAnalyzer.expiry_ok t ttl = true ->
      json_serializable value = false ->
      fst (DexAnalyzer.cache_get other now a') = Raise TransactionAborted
      /\ DexAnalyzer.db a' = s)
  /\ (DexAnalyzer.expiry_ok t ttl = false -> a' = DexAnalyzer.connect s).
Proof.
  intros Hne a'. subst a'. split; [|split].
  - intros He Hj Hk. rewrite (analyzer_cache_set_ok _ _ _ _ _ He Hj Hk).
    cbn [snd]. rewrite !analyzer_cache_get_ok. cbn [fst].
    rewrite cache_set_ok. unfold cache_get.
    cbn [snd cache_store set_cache_store].
    rewrite (cache_live_merged_other key) by (try reflexivity; exact Hne).
    now destruct (cache_live other now (cache_store s)).
  - intros He Hj.
    rewrite (analyzer_cache_set_raises _ _ _ _ _ Hj He). now split.
  - intros He. now rewrite (analyzer_cache_set_overflow _ _ _ _ _ He).
Qed.

(** * Instances *)

Lemma empty_state_well_formed : well_formed empty_state.
Proof. split; simpl; constructor. Qed.

Lemma tied_state_well_formed : well_formed tied_state.
Proof.
  split; cbn; repeat constructor; cbn; intuition (try discriminate); lia.
Qed.

(** The rate limiter on a fresh identifier, on a window with room and on a
    full window. *)
Lemma check_rate_limit_cases_example :
  (exists s',
     check_rate_limit "api" 10 1 0 false empty_state = (Ok true, s')
     /\ rate_first "api" (rate_limits s') = Some (mkRateLimit "api" 1 1000000))
  /\ check_rate_limit "api" 10 1 4500000 false full_window_state
     = (Ok false, full_window_state).
Proof.
  split.
  - exact (proj1 (check_rate_limit_cases "api" 10 1 0 empty_state) eq_refl).
  - refine (proj1 (proj1 (proj2 (check_rate_limit_cases
                                   "api" 10 1 4500000 full_window_state))
                         (mkRateLimit "api" 10 5000000) eq_refl _) _);
      vm_compute; discriminate.
Defined.

(** At the instant the window ends the specification asks for a fresh
    window and an admission; the code still counts the call against the old
    window, here a full one, and denies it. *)
Lemma check_rate_limit_at_expiry_instant :
  rate_first "api" (rate_limits full_window_state)
  = Some (mkRateLimit "api" 10 5000000)
  /\ check_rate_limit "api" 10 1 5000000 false full_window_state
     = (Ok false, full_window_state)
  /\ allow_as_specified "api" 10 1 5000000 full_window_state
     = (true,
        set_rate_limits [mkRateLimit "api" 1 6000000] full_window_state)
  /\ fst (check_rate_limit "api" 10 1 5000000 false full_window_state)
     <> Ok (fst (allow_as_specified "api" 10 1 5000000 full_window_state)).
Proof.
  repeat split; try (vm_compute; reflexivity).
  vm_compute. discriminate.
Qed.

(** [set("pair:0xabc", {"price": 1.0}, ttl=5)]: read back at once, absent
    six seconds later. *)
Lemma cache_get_live_only_example :
  let value := PDict [("price", PFloat 4607182418800017408)]%string in
  let s1 := snd (cache_set "pair:0xabc" value 5 0 false empty_state) in
  cache_get "pair:0xabc" 0 false s1 = (Ok value, s1)
  /\ cache_get "pair:0xabc" 6000000 false s1 = (Ok PNone, s1).
Proof.
  intros value s1. split.
  - exact (proj2 (proj2 (proj2 (cache_get_live_only
             "pair:0xabc" 0 empty_state empty_state_well_formed)))
             value 5 0).
  - exact (proj2 (proj2 (proj2 (cache_get_live_only
             "pair:0xabc" 6000000 empty_state empty_state_well_formed)))
             value 5 0).
Defined.

Lemma cache_set_last_write_wins_example :
  let s2 :=
    snd (cache_set "pair:0xabc" (PInt 2) 5 1 false
           (snd (cache_set "pair:0xabc" (PInt 1) 5 0 false empty_state))) in
  filter (is_key "pair:0xabc") (cache_store s2)
  = [mkCacheStore "pair:0xabc" (PInt 2) 5000001].
Proof.
  exact (proj1 (proj2 (proj2 (cache_set_last_write_wins
           "pair:0xabc" (PInt 1) 5 0 (PInt 2) 5 1 empty_state
           empty_state_well_formed)))).
Defined.

Lemma consume_in_publish_order_example :
  fst (consume_signals stable_order_by "trading"
         (publish_all str_of_text mixed_posts empty_state))
  = [PStr "a"; PStr "b"].
Proof.
  refine (consume_in_publish_order stable_order_by str_of_text "trading"
            mixed_posts empty_state stable_order_by_orders eq_refl _).
  vm_compute. repeat constructor.
Defined.

(** Two messages carry the same [created_at]; a store that returns ties in
    the other order hands the later message out first, although its id is
    the larger one. *)
Lemma consume_reverses_ties :
  orders_by_created_at reversing_order_by
  /\ map ts_id (trading_signals tied_state) = [1; 2]
  /\ map ts_message (trading_signals tied_state)
     = [PStr "first"; PStr "second"]
  /\ fst (consume_signals reversing_order_by "trading" tied_state)
     = [PStr "second"; PStr "first"]
  /\ fst (consume_signals reversing_order_by "trading" tied_state)
     <> map post_message tied_posts.
Proof.
  split; [apply reversing_order_by_orders|].
  repeat split; try (vm_compute; reflexivity).
  vm_compute. discriminate.
Qed.

Lemma consume_removes_batch_example :
  fst (consume_signals stable_order_by "trading" tied_state)
  = [PStr "first"; PStr "second"]
  /\ trading_signals (snd (consume_signals stable_order_by "trading"
                             tied_state)) = [].
Proof.
  pose proof (consume_removes_batch stable_order_by "trading" tied_state
                stable_order_by_orders tied_state_well_formed) as H.
  split.
  - exact (proj1 H).
  - reflexivity.
Defined.

(** With a batch bound of 1 asked for, the call still yields both stored
    messages: the query reads up to 100 rows whatever the caller wants. *)
Lemma consume_ignores_batch_bound :
  let max_batch := 1%nat in
  List.length (fst (consume_signals stable_order_by "trading" tied_state))
  = 2%nat
  /\ ~ (List.length (fst (consume_signals stable_order_by "trading"
                            tied_state)) <= max_batch)%nat.
Proof.
  intros max_batch. split; [reflexivity|].
  vm_compute. intros H. inversion H as [|? H']. inversion H'.
Qed.

(** [allow("api", limit=10, window=1)] fifteen times in a row. *)
Lemma sequential_calls_admit_limit_example :
  fst (check_rate_limit_each "api" 10 1 (repeat 0 15) empty_state)
  = repeat (Ok true) 10 ++ repeat (Ok false) 5.
Proof.
  refine (sequential_calls_admit_limit "api" 10 1 0 (repeat 0 14) empty_state
            _ eq_refl _ _).
  - lia.
  - unfold timedelta. repeat constructor; lia.
  - cbn. lia.
Defined.

(** Limit 2, three callers.  The first runs alone; the other two both read
    the window at count 1 before either writes: all three are admitted and
    the window ends at count 2. *)
Lemma interleaved_calls_exceed_limit :
  let outcome :=
    run_schedule "api" 2 1 [0; 0; 1; 2; 1; 2]%nat
                 [Calling 0; Calling 0; Calling 0] empty_state in
  fst outcome = [Returned (Ok true); Returned (Ok true); Returned (Ok true)]
  /\ rate_limits (snd outcome) = [mkRateLimit "api" 2 1000000]
  /\ List.length (filter caller_admitted (fst outcome)) <> Z.to_nat 2.
Proof.
  repeat split; try (vm_compute; reflexivity).
  vm_compute. discriminate.
Qed.

(** ** Instances of the further properties *)

Lemma mixed_state_well_formed : well_formed mixed_state.
Proof.
  split; cbn; repeat constructor; cbn; intuition (try discriminate); lia.
Qed.

Lemma first_call_ignores_limit_example :
  fst (check_rate_limit_each "api" 0 1 [0; 0; 0] empty_state)
  = [Ok true; Ok false; Ok false].
Proof.
  refine (first_call_ignores_limit "api" 0 1 0 [0; 0] empty_state
            _ eq_refl _).
  - lia.
  - unfold timedelta. repeat constructor; lia.
Defined.

Lemma rate_count_stays_within_example :
  window_within "api" 10
    (snd (check_rate_limit_each "api" 10 1 [4500000; 4600000]
                                full_window_state)).
Proof.
  refine (rate_count_stays_within "api" 10 1 [4500000; 4600000]
            full_window_state _).
  intros e Hin _. vm_compute in Hin. destruct Hin as [<-|[]].
  cbn. lia.
Defined.

Lemma interleaved_reads_lose_an_increment_example :
  let outcome :=
    run_schedule "api" 2 1 [0; 1; 0; 1]%nat [Calling 0; Calling 0]
                 one_call_state in
  fst outcome = [Returned (Ok true); Returned (Ok true)]
  /\ rate_first "api" (rate_limits (snd outcome))
     = Some (mkRateLimit "api" 2 1000000).
Proof.
  refine (interleaved_reads_lose_an_increment "api" 2 1 0 0 one_call_state
            (mkRateLimit "api" 1 1000000) eq_refl _ _ _); cbn; lia.
Defined.

Lemma racing_first_calls_one_raises_example :
  let outcome :=
    run_schedule "api" 10 1 [0; 1; 0; 1]%nat [Calling 0; Calling 0]
                 empty_state in
  fst outcome = [Returned (Ok true); Returned (Raise IntegrityError)]
  /\ rate_limits (snd outcome) = [mkRateLimit "api" 1 1000000].
Proof.
  exact (racing_first_calls_one_raises "api" 10 1 0 0 empty_state eq_refl).
Defined.

Lemma reachable_invariants_example :
  well_formed mixed_state /\ ids_ascending mixed_state.
Proof.
  apply reachable_invariants.
  unfold mixed_state, mixed_posts. cbn [publish_all].
  repeat apply reach_publish. apply reach_empty.
Defined.

Lemma consume_empty_channel_example :
  consume_signals stable_order_by "audit" tied_state = ([], tied_state).
Proof.
  exact (consume_empty_channel stable_order_by "audit" tied_state
           stable_order_by_orders eq_refl).
Defined.

Lemma consume_leaves_other_channels_example :
  let s' := snd (consume_signals stable_order_by "trading" mixed_state) in
  filter (on_channel "audit") (trading_signals s')
  = [mkTradingSignal 2 "audit" (PStr "x") 1]
  /\ fetch_signals stable_order_by "audit" s'
     = fetch_signals stable_order_by "audit" mixed_state.
Proof.
  refine (consume_leaves_other_channels stable_order_by stable_order_by
            "trading" "audit" mixed_state stable_order_by_orders
            mixed_state_well_formed _).
  discriminate.
Defined.

Lemma consume_oldest_first_example :
  StronglySorted created_le (fetch_signals stable_order_by "trading" tied_state).
Proof.
  exact (proj1 (consume_oldest_first stable_order_by "trading" tied_state
                  stable_order_by_orders)).
Defined.

Lemma consume_twice_in_order_example :
  fst (consume_signals stable_order_by "trading" mixed_state)
  = [PStr "a"; PStr "b"]
  /\ fst (consume_signals stable_order_by "trading"
           (snd (consume_signals stable_order_by "trading" mixed_state)))
     = [].
Proof.
  refine (consume_twice_in_order stable_order_by stable_order_by "trading"
            mixed_state stable_order_by_orders stable_order_by_orders
            mixed_state_well_formed _).
  cbn. repeat constructor.
Defined.


Lemma process_pair_denied_is_silent_example :
  sample_run (sample_pair "0xabc" true) 0 no_outage ten_events_state
  = (Ok PNone, ten_events_state).
Proof.
  refine (process_pair_denied_is_silent str_of_text Z price_features
            constant_scores (sample_pair "0xabc" true) (sample_clock 0)
            no_outage ten_events_state
            (mkRateLimit "api_requests" 10 1000000) eq_refl eq_refl _ _);
    cbn; lia.
Defined.

Lemma process_pair_missing_address_example :
  let s' := snd (sample_run anonymous_pair 0 no_outage empty_state) in
  fst (sample_run anonymous_pair 0 no_outage empty_state) = Ok PNone
  /\ journal s' = [Printed (KeyError "address")]
  /\ cache_store s' = []
  /\ trading_signals s' = []
  /\ rate_limits s' = [mkRateLimit "api_requests" 1 1000000].
Proof.
  exact (process_pair_missing_address str_of_text Z price_features
           constant_scores anonymous_pair (sample_clock 0) no_outage
           empty_state eq_refl eq_refl eq_refl).
Defined.

Lemma process_pair_analysis_failure_example :
  let s' := snd (sample_run priceless_pair 0 no_outage empty_state) in
  fst (sample_run priceless_pair 0 no_outage empty_state) = Ok PNone
  /\ journal s' = [Printed AnalysisFailure; Analyzed priceless_pair]
  /\ cache_store s' = []
  /\ trading_signals s' = [].
Proof.
  exact (process_pair_analysis_failure str_of_text Z price_features
           constant_scores priceless_pair (sample_clock 0) no_outage
           empty_state (PStr "0xbad") eq_refl eq_refl eq_refl eq_refl eq_refl
           (or_introl eq_refl)).
Defined.

Lemma process_pair_store_outage_example :
  let data := sample_pair "0xabc" true in
  let s' := snd (sample_run data 0 store_outage empty_state) in
  fst (sample_run data 0 store_outage empty_state) = Ok PNone
  /\ journal s' = [Printed StoreUnavailable; Analyzed data]
  /\ cache_store s' = []
  /\ trading_signals s' = [].
Proof.
  exact (process_pair_store_outage str_of_text Z price_features
           constant_scores (sample_pair "0xabc" true) (sample_clock 0)
           store_outage empty_state (PStr "0xabc") 3 4602678819172646912
           4607182418800017408 eq_refl eq_refl eq_refl eq_refl eq_refl
           eq_refl eq_refl eq_refl eq_refl).
Defined.

Lemma analysis_record_fields_example :
  exists analysis,
    _analyze_data Z price_features constant_scores stamped_pair 9 empty_state
    = (Ok analysis, emit_output (Analyzed stamped_pair) empty_state)
    /\ dict_get "timestamp" analysis = Some (PTime 9)
    /\ dict_get "price" analysis = Some (PInt 3).
Proof.
  destruct (analysis_record_fields Z price_features constant_scores
              stamped_pair 9 3 4602678819172646912 4607182418800017408
              empty_state eq_refl eq_refl eq_refl)
    as [analysis [Hrun [Hget _]]].
  exists analysis. split; [exact Hrun|].
  split; [exact (Hget "timestamp"%string) | exact (Hget "price"%string)].
Defined.

(** ** Instances on the analyzer's session *)

(** The same flagged pair twice: the record of the first run is not in the
    cache and the second run returns [None]. *)
Lemma identical_events_miss_the_cache_example :
  let data := sample_pair "0xabc" true in
  let a1 := snd (program_run data 0 sample_analyzer) in
  let a2 := snd (program_run data 1 a1) in
  fst (program_run data 1 a1) = Ok PNone
  /\ cache_store (DexAnalyzer.db a2) = []
  /\ journal (DexAnalyzer.db a2)
     = [Printed TransactionAborted; Printed StatementError; Analyzed data].
Proof.
  intros data a1 a2.
  pose proof (identical_events_miss_the_cache str_of_text quote_free Z
                price_features constant_scores data (sample_clock 0)
                sample_analyzer (PStr "0xabc") 3 4602678819172646912
                4607182418800017408 data (sample_clock 1)
                eq_refl eq_refl eq_refl eq_refl eq_refl eq_refl eq_refl
                eq_refl eq_refl) as H.
  cbv zeta in H. destruct H as [_ [_ [Hres [_ [Hcache [Hj _]]]]]].
  split; [exact Hres|]. split; [exact Hcache | exact Hj].
Defined.

(** After one analysed event, a second pair and an event without a flag are
    both lost. *)
Lemma later_events_are_lost_example :
  let a1 := snd (program_run (sample_pair "0xabc" true) 0 sample_analyzer) in
  let outcome :=
    DexAnalyzer.process_pairs str_of_text quote_free Z price_features
      constant_scores
      [(sample_pair "0xdef" true, sample_clock 1);
       (unflagged_pair, sample_clock 2)] a1 in
  fst outcome = [Ok PNone; Ok PNone]
  /\ cache_store (DexAnalyzer.db (snd outcome)) = []
  /\ trading_signals (DexAnalyzer.db (snd outcome)) = [].
Proof.
  intros a1 outcome.
  pose proof (proj2 (proj2 (later_events_are_lost str_of_text quote_free Z
                       price_features constant_scores
                       (sample_pair "0xabc" true) (sample_clock 0)
                       sample_analyzer (PStr "0xabc") 3 4602678819172646912
                       4607182418800017408))
                    eq_refl eq_refl eq_refl eq_refl eq_refl eq_refl eq_refl
                    eq_refl
                    [(sample_pair "0xdef" true, sample_clock 1);
                     (unflagged_pair, sample_clock 2)]) as H.
  cbv zeta in H. destruct H as [Hres [Hcache [Hrows _]]].
  split; [exact Hres|]. split; [exact Hcache | exact Hrows].
Defined.


(** An event without a [signal] field prints the failure of the write, not
    a [KeyError]; a flagged one is not published either. *)
Lemma publish_gate_is_never_reached_example :
  let a' := snd (program_run unflagged_pair 0 sample_analyzer) in
  journal (DexAnalyzer.db a')
  = [Printed StatementError; Analyzed unflagged_pair]
  /\ cache_store (DexAnalyzer.db a') = []
  /\ trading_signals
       (DexAnalyzer.db
          (snd (program_run (sample_pair "0xabc" true) 0 sample_analyzer)))
     = [].
Proof.
  intros a'.
  pose proof (publish_gate_is_never_reached str_of_text quote_free Z
                price_features constant_scores unflagged_pair
                (sample_clock 0) sample_analyzer (PStr "0xabc") 3
                4602678819172646912 4607182418800017408
                eq_refl eq_refl eq_refl eq_refl eq_refl eq_refl eq_refl
                eq_refl)
    as H.
  cbv zeta in H. destruct H as [_ [_ [_ [Hj [Hcache Hnever]]]]].
  split; [exact Hj|]. split; [exact Hcache|].
  exact (Hnever (sample_pair "0xabc" true) (sample_clock 0) sample_analyzer).
Defined.

Lemma expired_window_ends_the_session_example :
  DexAnalyzer.check_rate_limit_each "api" 10 1 [6000000; 7000000; 7000001]
                                    (DexAnalyzer.connect full_window_state)
  = ([Raise IntegrityError; Raise TransactionAborted;
      Raise TransactionAborted],
     DexAnalyzer.mkAnalyzer full_window_state true).
Proof.
  refine (expired_window_ends_the_session "api" 10 1 6000000
            [7000000; 7000001] full_window_state
            (mkRateLimit "api" 10 5000000) eq_refl _ eq_refl eq_refl).
  cbn. lia.
Defined.

Lemma notify_failure_leaves_message_queued_example :
  let attempt :=
    DexAnalyzer.publish_signal str_of_text quote_free "trading"
                               (PStr "it's") 3 sample_analyzer in
  fst attempt = Raise ProgrammingError
  /\ trading_signals (DexAnalyzer.db (snd attempt))
     = [mkTradingSignal 1 "trading" (PStr "it's") 3]
  /\ fst (DexAnalyzer.consume_signals stable_order_by "trading"
           (snd attempt))
     = Raise TransactionAborted
  /\ fst (DexAnalyzer.consume_signals stable_order_by "trading"
           (DexAnalyzer.connect (DexAnalyzer.db (snd attempt))))
     = Ok [PStr "it's"].
Proof.
  refine (notify_failure_leaves_message_queued str_of_text quote_free
            stable_order_by "trading" (PStr "it's") 3 empty_state
            stable_order_by_orders eq_refl eq_refl eq_refl _ eq_refl).
  cbn. unfold DexAnalyzer.integer_max. lia.
Defined.

Lemma cache_write_and_other_keys_example :
  let s := snd (cache_set "pair:a" (PInt 1) 5 0 false empty_state) in
  fst (DexAnalyzer.cache_get "pair:a" 1
         (snd (DexAnalyzer.cache_set "pair:b" (PInt 2) 5 0
                 (DexAnalyzer.connect s))))
  = Ok (PInt 1)
  /\ fst (DexAnalyzer.cache_get "pair:a" 1
            (snd (DexAnalyzer.cache_set "pair:b" (PTime 0) 5 0
                    (DexAnalyzer.connect s))))
     = Raise TransactionAborted.
Proof.
  intros s. split.
  - refine (proj1 (cache_write_and_other_keys "pair:b" "pair:a" (PInt 2) 5 0
                     1 s _) eq_refl eq_refl eq_refl).
    discriminate.
  - refine (proj1 (proj1 (proj2 (cache_write_and_other_keys
                                   "pair:b" "pair:a" (PTime 0) 5 0 1 s _))
                         eq_refl eq_refl)).
    discriminate.
Defined.
